(** * @hulla/control: the Result pattern (ok, err, tcf, result)

    A shallow embedding of [ok] (src/return/ok.ts), [err] (its text follows
    the tests in tests/usecase.test.ts, lines 132-204), [tcf] and the
    [result] that follows it (src/return/tcf.ts) and [result]
    (src/return/result.ts), over a small model of the JavaScript run time
    they rely on: values, functions that may throw and touch the host's
    state, promises with their reactions and the job queue, and
    try/catch/finally.

    Not modelled: the host's functions touch the host's state only, not the
    promises; a thenable that is not a [Promise]; the extra turn of the job
    queue that following a promise takes. *)

From Stdlib Require Import ZArith String List Lia.
From stdpp Require Import base option list.
Import ListNotations.
Local Open Scope string_scope.
Local Open Scope list_scope.
Set Warnings "-register-all".

(** ** JavaScript values *)

(** The values the library inspects or builds.  [VError name message] is an
    instance of [Error] or of one of its subclasses ([name] is the class);
    [VArray] is an array literal; [VPromise h] is a reference to the promise
    object stored at handle [h]: two references are the same object exactly
    when their handles are equal. *)
Inductive Value : Type :=
| VUndefined
| VBool (b : bool)
| VNum (n : Z)
| VStr (s : string)
| VError (name message : string)
| VArray (items : list Value)
| VPromise (h : nat).

(** [v instanceof Error] *)
Definition instanceof_Error (v : Value) : bool :=
  match v with VError _ _ => true | _ => false end.

(** [v instanceof Promise] *)
Definition instanceof_Promise (v : Value) : bool :=
  match v with VPromise _ => true | _ => false end.

(** [a ?? b] on an optional ([undefined] is [None]). *)
Definition nullish {A : Type} (a : option A) (b : A) : A :=
  match a with Some x => x | None => b end.

Notation "a ?? b" := (nullish a b) (at level 45, left associativity).

(** Truthiness of an optional string, as tested by [cond ? x : y]:
    [undefined] and the empty string are falsy. *)
Definition truthy (t : option string) : bool :=
  match t with
  | None => false
  | Some s => negb (String.eqb s "")
  end.

(** How a call or a block completes. *)
Inductive Completion (A : Type) : Type :=
| Normal (a : A)
| Throw (fault : Value).
Arguments Normal {A} a.
Arguments Throw {A} fault.

(** The state of a promise object. *)
Inductive PState : Type :=
| Pending
| Fulfilled (v : Value)
| Rejected (reason : Value).

(** What the library called, in order.  Each event names the parameter
    through which the function was received, with the argument passed. *)
Inductive Event : Type :=
| EvTry
| EvCatch (fault : Value)
| EvFinally
| EvOnOk (v : Value)
| EvOnErr (e : Value)
| EvIsError (v : Value).

(** ** Result instances *)

(** The object returned by [ok] ([{ tag, value, ...methods }]) or by [err]
    ([{ tag, error, ...methods }]). *)
Inductive Result : Type :=
| OkI (tag : string) (value : Value)
| ErrI (tag : string) (error : Value).

Definition tag (r : Result) : string :=
  match r with OkI t _ => t | ErrI t _ => t end.

(** [r.value]: [undefined] on an [Err]. *)
Definition value (r : Result) : option Value :=
  match r with OkI _ v => Some v | ErrI _ _ => None end.

(** [r.error]: [undefined] on an [Ok]. *)
Definition error (r : Result) : option Value :=
  match r with OkI _ _ => None | ErrI _ e => Some e end.

(** Modelled from the spec: [@/lib/constants] is not among the sources; the
    spec gives the two default tags as ["Ok"] and ["Err"] (so do the types
    [Ok<T>] and [Err<E>] of [types.public.ts] and the doc comments of [ok]
    and [err]). *)
Definition DEFAULT_TAG_OK : string := "Ok".
Definition DEFAULT_TAG_ERROR : string := "Err".

(** ** The run time *)

Section Runtime.

(** The host's state: whatever the caller's functions read and write. *)
Context {W : Type}.

(** A function received from the caller, applied to its arguments: it
    runs on the host's state and returns or throws. *)
Definition Code (A : Type) : Type := W -> Completion A * W.

(** A one-argument function, a zero-argument function, a predicate. *)
Definition Fn : Type := Value -> Code Value.
Definition Thunk : Type := Code Value.
Definition Pred : Type := Value -> Code bool.

(** The callbacks the library passes to [then], one per arrow function in
    the source, with the variables each one captures; [CbAdopt] is the
    pair of resolving functions a promise subscribes to the promise it
    was resolved with. *)
Inductive Callback : Type :=
| CbOkMatch (ok : Fn)      (* ok.ts:59                 v => ok(v) *)
| CbOkPair                 (* ok.ts:65                 v => [v, undefined] *)
| CbErrMatch (err : Fn)    (* usecase.test.ts:180      e => err(e) *)
| CbErrPair                (* usecase.test.ts:186      e => [undefined, e] *)
| CbAdopt.

(** [p.then(cb)] leaves a reaction on [p]: the callback and the promise
    that [then] returned. *)
Record Reaction : Type := { on_fulfilled : Callback; derived : nat }.

Record PromiseObj : Type := { pstate : PState; reactions : list Reaction }.

(** A queued reaction job, with the settlement it reacts to. *)
Record Job : Type := { job_reaction : Reaction; job_arg : PState }.

Record State : Type := {
  world : W;
  promises : list PromiseObj;
  jobs : list Job;
  log : list Event
}.

Definition set_world (w : W) (s : State) : State :=
  {| world := w; promises := promises s; jobs := jobs s; log := log s |}.
Definition set_promises (ps : list PromiseObj) (s : State) : State :=
  {| world := world s; promises := ps; jobs := jobs s; log := log s |}.
Definition set_jobs (js : list Job) (s : State) : State :=
  {| world := world s; promises := promises s; jobs := js; log := log s |}.
Definition add_log (ev : Event) (s : State) : State :=
  {| world := world s; promises := promises s; jobs := jobs s;
     log := log s ++ [ev] |}.

(** Library code: a state transformer that returns or throws.  A throw
    keeps the state reached so far. *)
Definition M (A : Type) : Type := State -> Completion A * State.

Definition ret {A : Type} (a : A) : M A := fun s => (Normal a, s).

Definition bind {A B : Type} (m : M A) (k : A -> M B) : M B :=
  fun s =>
    match m s with
    | (Normal a, s') => k a s'
    | (Throw e, s') => (Throw e, s')
    end.

(** A call of a caller's function from the library, recorded as [ev]. *)
Definition call {A : Type} (ev : Event) (f : Code A) : M A :=
  fun s =>
    let '(c, w) := f (world s) in
    (c, set_world w (add_log ev s)).

(** [try { body } catch (e) { handler e } finally { fin }]: the handler
    runs when the body throws; [fin] runs in every case, after them; when
    [fin] throws, its fault replaces the completion reached before. *)
Definition try_catch_finally {A : Type}
    (body : M A) (handler : Value -> M A) (fin : M unit) : M A :=
  fun s =>
    let '(c, s1) :=
      match body s with
      | (Normal a, s1) => (Normal a, s1)
      | (Throw e, s1) => handler e s1
      end in
    match fin s1 with
    | (Normal _, s2) => (c, s2)
    | (Throw e, s2) => (Throw e, s2)
    end.

End Runtime.

Arguments State W : clear implicits.
Arguments M W A : clear implicits.
Arguments Code W A : clear implicits.
Arguments Fn W : clear implicits.
Arguments Thunk W : clear implicits.
Arguments Pred W : clear implicits.
Arguments Callback W : clear implicits.
Arguments Reaction W : clear implicits.
Arguments PromiseObj W : clear implicits.
Arguments Job W : clear implicits.

Notation "'let*' x ':=' c 'in' k" := (bind c (fun x => k))
  (at level 10, x name, c at level 100, k at level 200).

(** ** Promises *)

Section Promises.

Context {W : Type}.

(** [new Promise(...)]: a pending promise at the next free handle. *)
Definition new_promise : M W nat :=
  fun s =>
    (Normal (length (promises s)),
     set_promises (promises s ++ [{| pstate := Pending; reactions := [] |}]) s).

(** Leave reaction [r] on promise [p]: kept on a pending promise, queued
    at once as a job on a settled one.  A handle that holds no promise
    never settles. *)
Definition subscribe (p : nat) (r : Reaction W) (s : State W) : State W :=
  match promises s !! p with
  | Some o =>
      match pstate o with
      | Pending =>
          set_promises
            (<[p := {| pstate := Pending; reactions := reactions o ++ [r] |}]>
               (promises s)) s
      | settled =>
          set_jobs (jobs s ++ [{| job_reaction := r; job_arg := settled |}]) s
      end
  | None => s
  end.

(** [p.then(cb)]: a new pending promise, returned at once; [cb] is never
    run by [then] itself. *)
Definition then_ (p : nat) (cb : Callback W) : M W Value :=
  let* d := new_promise in
  fun s => (Normal (VPromise d),
            subscribe p {| on_fulfilled := cb; derived := d |} s).

(** Settle a pending promise and queue a job for each of its reactions;
    a promise settles once. *)
Definition settle (h : nat) (st : PState) (s : State W) : State W :=
  match promises s !! h with
  | Some o =>
      match pstate o with
      | Pending =>
          set_jobs
            (jobs s ++
             map (fun r => {| job_reaction := r; job_arg := st |}) (reactions o))
            (set_promises
               (<[h := {| pstate := st; reactions := [] |}]> (promises s)) s)
      | _ => s
      end
  | None => s
  end.

Definition fulfill (h : nat) (v : Value) : State W -> State W :=
  settle h (Fulfilled v).

Definition reject (h : nat) (reason : Value) : State W -> State W :=
  settle h (Rejected reason).

(** Resolve promise [h] with [x]: a promise [x] is followed (its
    settlement becomes that of [h]), any other value fulfills [h]. *)
Definition resolve (h : nat) (x : Value) (s : State W) : State W :=
  match x with
  | VPromise q =>
      if Nat.eqb q h
      then reject h (VError "TypeError" "Chaining cycle detected for promise") s
      else subscribe q {| on_fulfilled := CbAdopt; derived := h |} s
  | _ => fulfill h x s
  end.

(** The body of each callback. *)
Definition run_callback (cb : Callback W) (v : Value) : M W Value :=
  match cb with
  | CbOkMatch ok => call (EvOnOk v) (ok v)
  | CbOkPair => ret (VArray [v; VUndefined])
  | CbErrMatch err => call (EvOnErr v) (err v)
  | CbErrPair => ret (VArray [VUndefined; v])
  | CbAdopt => ret v
  end.

(** A reaction job: on a fulfilment the callback runs and its completion
    settles the derived promise; a rejection passes through, the callback
    is not run. *)
Definition run_job (j : Job W) (s : State W) : State W :=
  let d := derived (job_reaction j) in
  match job_arg j with
  | Fulfilled v =>
      match run_callback (on_fulfilled (job_reaction j)) v s with
      | (Normal x, s') => resolve d x s'
      | (Throw e, s') => reject d e s'
      end
  | Rejected reason => reject d reason s
  | Pending => s
  end.

(** The host drains the job queue, oldest job first. *)
Fixpoint run_jobs (fuel : nat) (s : State W) : State W :=
  match fuel with
  | O => s
  | S fuel' =>
      match jobs s with
      | [] => s
      | j :: rest => run_jobs fuel' (run_job j (set_jobs rest s))
      end
  end.

(** The state of the promise behind a handle. *)
Definition state_of (h : nat) (s : State W) : option PState :=
  pstate <$> promises s !! h.

End Promises.

(** ** src/return/ok.ts *)

Module OkTs.
Section Ok.

Context {W : Type}.

Definition isOk (value : Value) : bool := true.
Definition isErr (value : Value) : bool := false.

(** [match]: declared with the single parameter [ok]; a second argument
    of the call is dropped. *)
Definition match_ (value : Value) (ok : Fn W) : M W Value :=
  match value with
  | VPromise p => then_ p (CbOkMatch ok)
  | _ => call (EvOnOk value) (ok value)
  end.

Definition pair (value : Value) : M W Value :=
  match value with
  | VPromise p => then_ p CbOkPair
  | _ => ret (VArray [value; VUndefined])
  end.

Definition unwrap (value : Value) : Value := value.

End Ok.

(** [ok(value, tag?)] *)
Definition ok (value : Value) (tag : option string) : Result :=
  OkI (tag ?? DEFAULT_TAG_OK) value.

End OkTs.

(** ** src/return/err.ts (tests/usecase.test.ts:132-204) *)

Module ErrTs.
Section Err.

Context {W : Type}.

Definition isOk (error : Value) : bool := false.
Definition isErr (error : Value) : bool := true.

Definition match_ (error : Value) (_ok err : Fn W) : M W Value :=
  match error with
  | VPromise p => then_ p (CbErrMatch err)
  | _ => call (EvOnErr error) (err error)
  end.

Definition pair (error : Value) : M W Value :=
  match error with
  | VPromise p => then_ p CbErrPair
  | _ => ret (VArray [VUndefined; error])
  end.

Definition unwrap (error : Value) : Value := error.

End Err.

(** [err(error, tag?)] *)
Definition err (error : Value) (tag : option string) : Result :=
  ErrI (tag ?? DEFAULT_TAG_ERROR) error.

End ErrTs.

(** ** The methods of an instance *)

(** An instance carries the methods its constructor closed over its
    payload; a method call on the instance reaches the one of its variant. *)
Section Methods.

Context {W : Type}.

Definition isOk (r : Result) : bool :=
  match r with OkI _ v => OkTs.isOk v | ErrI _ e => ErrTs.isOk e end.

Definition isErr (r : Result) : bool :=
  match r with OkI _ v => OkTs.isErr v | ErrI _ e => ErrTs.isErr e end.

(** [r.match(onOk, onErr)] *)
Definition match_ (r : Result) (onOk onErr : Fn W) : M W Value :=
  match r with
  | OkI _ v => OkTs.match_ v onOk
  | ErrI _ e => ErrTs.match_ e onOk onErr
  end.

(** [r.pair()] *)
Definition pair (r : Result) : M W Value :=
  match r with OkI _ v => OkTs.pair v | ErrI _ e => ErrTs.pair e end.

(** [r.unwrap()] *)
Definition unwrap (r : Result) : Value :=
  match r with OkI _ v => OkTs.unwrap v | ErrI _ e => ErrTs.unwrap e end.

End Methods.

(** ** src/types.private.ts: [ResultConfig] *)

(** [Partial<{ isError, tagError, tagOk }>]: every field may be absent. *)
Record ResultConfig (W : Type) : Type := {
  isError : option (Pred W);
  tagError : option string;
  tagOk : option string
}.
Arguments isError {W} _.
Arguments tagError {W} _.
Arguments tagOk {W} _.

(** [config?.field] on an optional [config]. *)
Definition opt_field {C A : Type} (config : option C) (field : C -> option A)
    : option A :=
  match config with Some c => field c | None => None end.

Notation "c ?. f" := (opt_field c f) (at level 9, f at level 8).

(** ** src/return/tcf.ts *)

Module TcfTs.
Section Tcf.

Context {W : Type}.

(** [finallyFn?.()]: nothing is called when no function was given; the
    value returned is dropped. *)
Definition call_finally (finallyFn : option (Thunk W)) : M W unit :=
  match finallyFn with
  | Some f => let* _ := call EvFinally f in ret tt
  | None => ret tt
  end.

(** [tcf({ try: tryFn, catch: catchFn, finally: finallyFn, tagError, tagOk })] *)
Definition tcf (tryFn : Thunk W) (catchFn : Fn W) (finallyFn : option (Thunk W))
    (tagError tagOk : option string) : M W Result :=
  try_catch_finally
    (match tagOk with
     | None => let* v := call EvTry tryFn in ret (OkTs.ok v None)
     | Some t => let* v := call EvTry tryFn in ret (OkTs.ok v (Some t))
     end)
    (fun error =>
       match tagError with
       | None =>
           let* e := call (EvCatch error) (catchFn error) in
           ret (ErrTs.err e None)
       | Some t =>
           let* e := call (EvCatch error) (catchFn error) in
           ret (ErrTs.err e (Some t))
       end)
    (call_finally finallyFn).

(** tcf.ts:178 *)
Definition defaultIsError : Pred W :=
  fun value w => (Normal (instanceof_Error value), w).

(** tcf.ts:218, the [result] this file defines. *)
Definition result (value : Value) (config : option (ResultConfig W))
    : M W Result :=
  let isError := (config ?. isError) ?? defaultIsError in
  let* b := call (EvIsError value) (isError value) in
  if b : bool
  then ret (ErrTs.err value (Some ((config ?. tagError) ?? DEFAULT_TAG_ERROR)))
  else ret (OkTs.ok value (Some ((config ?. tagOk) ?? DEFAULT_TAG_OK))).

End Tcf.
End TcfTs.

(** ** src/return/result.ts *)

Module ResultTs.
Section ResultFn.

Context {W : Type}.

(** result.ts:7 *)
Definition defaultIsError : Pred W :=
  fun value w => (Normal (instanceof_Error value), w).

(** result.ts:34 *)
Definition result (value : Value) (config : option (ResultConfig W))
    : M W Result :=
  let isError := (config ?. isError) ?? defaultIsError in
  let processValue := fun val : Value =>
    let* b := call (EvIsError val) (isError val) in
    if b : bool
    then
      if truthy (config ?. tagError)
      then ret (ErrTs.err val (config ?. tagError))
      else ret (ErrTs.err val None)
    else
      if truthy (config ?. tagOk)
      then ret (OkTs.ok val (config ?. tagOk))
      else ret (OkTs.ok val None) in
  processValue value.

End ResultFn.
End ResultTs.

(** ** Concrete hosts and callbacks *)

(** A state with no promise, no job and nothing called yet. *)
Definition s0 {W : Type} (w : W) : State W :=
  {| world := w; promises := []; jobs := []; log := [] |}.

Definition returns {W : Type} (v : Value) : Thunk W := fun w => (Normal v, w).
Definition throws {W : Type} (e : Value) : Thunk W := fun w => (Throw e, w).

(** [v => v] and [e => e.message] *)
Definition identity {W : Type} : Fn W := fun v w => (Normal v, w).
Definition message {W : Type} : Fn W :=
  fun e w =>
    match e with
    | VError _ m => (Normal (VStr m), w)
    | _ => (Normal VUndefined, w)
    end.

(** [(error) => new HandledError(error.message)] *)
Definition handled {W : Type} : Fn W :=
  fun e w =>
    match e with
    | VError _ m => (Normal (VError "HandledError" m), w)
    | _ => (Normal (VError "HandledError" ""), w)
    end.

(** [() => { finallyCalled = true }], counting the calls. *)
Definition count_call : Thunk nat := fun n => (Normal VUndefined, S n).

(** A state whose only promise, at handle 0, is in state [st]. *)
Definition one_promise {W : Type} (w : W) (st : PState) : State W :=
  {| world := w; promises := [{| pstate := st; reactions := [] |}];
     jobs := []; log := [] |}.

(** ** Notions used in the statements *)

(** The promise at [p] fulfils with [x]: it is pending, to be fulfilled by
    the host, or it is already fulfilled with [x]; nothing waits on it and
    no job is queued.  The state in which a caller wraps a promise. *)
Definition fulfils_with {W : Type} (p : nat) (x : Value) (s : State W) : Prop :=
  (promises s !! p = Some {| pstate := Pending; reactions := [] |} \/
   promises s !! p = Some {| pstate := Fulfilled x; reactions := [] |}) /\
  jobs s = [].

(** The state after [p.then(cb)] once [p] is fulfilled with [v] and the job
    of the reaction is taken off the queue. *)
Definition fulfilled_at {W : Type} (p : nat) (v : Value) (s : State W)
    : State W :=
  set_promises
    (<[p := {| pstate := Fulfilled v; reactions := [] |}]>
       (promises s ++ [{| pstate := Pending; reactions := [] |}])) s.

(** Every queued job only passes a settlement on to promise [d], and
    nothing waits on [d]. *)
Definition adopts_only {W : Type} (d : nat) (s : State W) : Prop :=
  Forall (fun j => job_reaction j = {| on_fulfilled := CbAdopt; derived := d |})
         (jobs s) /\
  (forall o, promises s !! d = Some o -> reactions o = []).

(** The [finally] operation, if any, returns when run on [w]. *)
Definition finally_returns {W : Type} (finallyFn : option (Thunk W)) (w : W)
    : Prop :=
  match finallyFn with
  | Some f => exists x w', f w = (Normal x, w')
  | None => True
  end.

(** The host's state when the [finally] block is entered: after [try] if
    it returned, after [catch] if [try] threw. *)
Definition before_finally {W : Type} (tryFn : Thunk W) (catchFn : Fn W) (w : W)
    : W :=
  match tryFn w with
  | (Normal _, w1) => w1
  | (Throw e, w1) => snd (catchFn e w1)
  end.

(** What [tcf] calls before the [finally] block. *)
Definition try_catch_events {W : Type} (tryFn : Thunk W) (w : W) : list Event :=
  match tryFn w with
  | (Normal _, _) => [EvTry]
  | (Throw e, _) => [EvTry; EvCatch e]
  end.

(** The number of calls of the [finally] operation in a log. *)
Fixpoint count_finally (l : list Event) : nat :=
  match l with
  | [] => 0
  | EvFinally :: l' => S (count_finally l')
  | _ :: l' => count_finally l'
  end.

(** The rule "a value on [try]'s return, an error on [try]'s fault" with
    nothing said of [finally], on one invocation. *)
Definition tcf_wraps_outcome {W : Type} (tryFn : Thunk W) (catchFn : Fn W)
    (finallyFn : option (Thunk W)) (tagError tagOk : option string)
    (s : State W) : Prop :=
  match tryFn (world s) with
  | (Normal v, _) =>
      fst (TcfTs.tcf tryFn catchFn finallyFn tagError tagOk s)
      = Normal (OkTs.ok v tagOk)
  | (Throw e, w) =>
      match catchFn e w with
      | (Normal e', _) =>
          fst (TcfTs.tcf tryFn catchFn finallyFn tagError tagOk s)
          = Normal (ErrTs.err e' tagError)
      | (Throw _, _) => True
      end
  end.

(** The tag the discriminator is to give: [tag ?? default]. *)
Definition expected_result {W : Type} (is_error : bool) (value : Value)
    (config : option (ResultConfig W)) : Result :=
  if is_error
  then ErrTs.err value (Some ((config ?. tagError) ?? DEFAULT_TAG_ERROR))
  else OkTs.ok value (Some ((config ?. tagOk) ?? DEFAULT_TAG_OK)).

(** A config that gives only [tagOk], as the empty string. *)
Definition empty_tagOk {W : Type} : option (ResultConfig W) :=
  Some {| isError := None; tagError := None; tagOk := Some "" |}.

(** No tag of the config is the empty string. *)
Definition no_empty_tag {W : Type} (config : option (ResultConfig W)) : Prop :=
  config ?. tagError <> Some "" /\ config ?. tagOk <> Some "".

(** ** Call chains of the tests *)

(** What [tcf] calls for its [finally] block. *)
Definition finally_events {W : Type} (finallyFn : option (Thunk W))
    : list Event :=
  match finallyFn with
  | Some _ => [EvFinally]
  | None => []
  end.

(** [tcf({ ... }).match(onOk, onErr)] (tests/ok.test.ts:83, 94) *)
Definition tcf_match {W : Type} (tryFn : Thunk W) (catchFn : Fn W)
    (finallyFn : option (Thunk W)) (tagError tagOk : option string)
    (onOk onErr : Fn W) : M W Value :=
  let* r := TcfTs.tcf tryFn catchFn finallyFn tagError tagOk in
  match_ r onOk onErr.

(** [{ ...config, tagOk: t }] and [{ ...config, tagError: t }] *)
Definition set_tagOk {W : Type} (t : option string) (c : ResultConfig W)
    : ResultConfig W :=
  {| isError := isError c; tagError := tagError c; tagOk := t |}.
Definition set_tagError {W : Type} (t : option string) (c : ResultConfig W)
    : ResultConfig W :=
  {| isError := isError c; tagError := t; tagOk := tagOk c |}.

(** [r.pair()] then [r.match(onOk, onErr)] on one instance, the promise
    [p] behind it fulfilled afterwards and the jobs run. *)
Definition pair_then_match_later {W : Type} (r : Result) (onOk onErr : Fn W)
    (p : nat) (x : Value) (fuel : nat) (s : State W) : State W :=
  let s1 := snd (pair r s) in
  let s2 := snd (match_ r onOk onErr s1) in
  run_jobs fuel (fulfill p x s2).

(** * Properties *)

(** ** The repository's tests, run on the model *)

(** tests/ok.test.ts: should return an Ok type *)
Example test_ok_basic :
  isOk (OkTs.ok (VNum 1) None) = true /\
  isErr (OkTs.ok (VNum 1) None) = false /\
  fst (match_ (OkTs.ok (VNum 1) None) identity identity (s0 tt)) = Normal (VNum 1) /\
  unwrap (OkTs.ok (VNum 1) None) = VNum 1.
Proof. repeat split. Qed.

(** tests/err.test.ts: should return an Err type; a Tagged Err type; a pair *)
Example test_err_basic :
  let e := VError "CustomError" "test error" in
  isOk (ErrTs.err e None) = false /\
  isErr (ErrTs.err e None) = true /\
  fst (match_ (ErrTs.err e None) identity message (s0 tt)) = Normal (VStr "test error") /\
  tag (ErrTs.err e (Some "customError")) = "customError" /\
  fst (pair (ErrTs.err e None) (s0 tt)) = Normal (VArray [VUndefined; e]).
Proof. repeat split. Qed.

(** tests/ok.test.ts: promises should be awaited ([ok(Promise.resolve(1))]) *)
Example test_ok_promise :
  let s := one_promise tt (Fulfilled (VNum 1)) in
  let '(c, s1) := match_ (OkTs.ok (VPromise 0) None) identity identity s in
  c = Normal (VPromise 1) /\
  state_of 1 s1 = Some Pending /\
  state_of 1 (run_jobs 5 s1) = Some (Fulfilled (VNum 1)).
Proof. repeat split. Qed.

(** tests/ok.test.ts (tcf): Ok when try succeeds, Err when try fails,
    tags, and the finally block in both cases *)
Example test_tcf :
  fst (TcfTs.tcf (returns (VStr "success")) handled None None None (s0 tt))
    = Normal (OkI "Ok" (VStr "success")) /\
  fst (TcfTs.tcf (throws (VError "CustomError" "test error")) handled None None None (s0 tt))
    = Normal (ErrI "Err" (VError "HandledError" "test error")) /\
  fst (TcfTs.tcf (returns (VStr "success")) handled None (Some "errorTag") (Some "successTag") (s0 tt))
    = Normal (OkI "successTag" (VStr "success")) /\
  fst (TcfTs.tcf (throws (VError "CustomError" "test error")) handled None (Some "errorTag") None (s0 tt))
    = Normal (ErrI "errorTag" (VError "HandledError" "test error")) /\
  world (snd (TcfTs.tcf (returns (VStr "success")) handled (Some count_call) None None (s0 0))) = 1 /\
  world (snd (TcfTs.tcf (throws (VError "CustomError" "test error")) handled (Some count_call) None None (s0 0))) = 1.
Proof. repeat split. Qed.

(** tests/result.test.ts: normal values, Error instances, tags *)
Example test_result :
  let cfg := Some {| isError := None; tagError := Some "FAILURE"; tagOk := Some "SUCCESS" |} in
  fst (ResultTs.result (VNum 42) None (s0 tt)) = Normal (OkI "Ok" (VNum 42)) /\
  fst (ResultTs.result (VError "Error" "test error") None (s0 tt))
    = Normal (ErrI "Err" (VError "Error" "test error")) /\
  fst (ResultTs.result (VNum 42) cfg (s0 tt)) = Normal (OkI "SUCCESS" (VNum 42)) /\
  fst (ResultTs.result (VError "Error" "test error") cfg (s0 tt))
    = Normal (ErrI "FAILURE" (VError "Error" "test error")).
Proof. repeat split. Qed.

(** ** The run time: what each operation leaves untouched *)

Section Frames.

Context {W : Type}.
Implicit Types (s : State W) (r : Reaction W) (cb : Callback W).

Lemma call_eq {A : Type} (ev : Event) (f : Code W A) s :
  call ev f s = (fst (f (world s)), set_world (snd (f (world s))) (add_log ev s)).
Proof. unfold call. destruct (f (world s)); reflexivity. Qed.

Lemma subscribe_log p r s : log (subscribe p r s) = log s.
Proof.
  unfold subscribe. destruct (promises s !! p) as [o|]; [|reflexivity].
  destruct (pstate o); reflexivity.
Qed.

Lemma subscribe_world p r s : world (subscribe p r s) = world s.
Proof.
  unfold subscribe. destruct (promises s !! p) as [o|]; [|reflexivity].
  destruct (pstate o); reflexivity.
Qed.

Lemma settle_log h st s : log (settle h st s) = log s.
Proof.
  unfold settle. destruct (promises s !! h) as [o|]; [|reflexivity].
  destruct (pstate o); reflexivity.
Qed.

Lemma settle_world h st s : world (settle h st s) = world s.
Proof.
  unfold settle. destruct (promises s !! h) as [o|]; [|reflexivity].
  destruct (pstate o); reflexivity.
Qed.

Lemma resolve_log h x s : log (resolve h x s) = log s.
Proof.
  unfold resolve, fulfill, reject.
  destruct x; try apply settle_log.
  destruct (Nat.eqb _ _); [apply settle_log | apply subscribe_log].
Qed.

Lemma resolve_world h x s : world (resolve h x s) = world s.
Proof.
  unfold resolve, fulfill, reject.
  destruct x; try apply settle_world.
  destruct (Nat.eqb _ _); [apply settle_world | apply subscribe_world].
Qed.

(** [then] calls nothing: it allocates the derived promise and leaves the
    reaction. *)
Lemma then_eq p cb s :
  then_ p cb s
  = (Normal (VPromise (length (promises s))),
     subscribe p {| on_fulfilled := cb; derived := length (promises s) |}
       (set_promises
          (promises s ++ [{| pstate := Pending; reactions := [] |}]) s)).
Proof. reflexivity. Qed.

Lemma then_log p cb s : log (snd (then_ p cb s)) = log s.
Proof. rewrite then_eq. simpl. rewrite subscribe_log. reflexivity. Qed.

Lemma then_world p cb s : world (snd (then_ p cb s)) = world s.
Proof. rewrite then_eq. simpl. rewrite subscribe_world. reflexivity. Qed.

(** The derived promise is pending when [then] returns. *)
Lemma then_pending p cb s :
  p < length (promises s) ->
  state_of (length (promises s)) (snd (then_ p cb s)) = Some Pending.
Proof.
  intros Hp. rewrite then_eq. unfold state_of, subscribe. simpl.
  destruct ((promises s ++ _) !! p) as [o|] eqn:Ho; simpl.
  - destruct (pstate o); simpl.
    + rewrite list_lookup_insert_ne by lia.
      rewrite lookup_app_r by lia. rewrite Nat.sub_diag. reflexivity.
    + rewrite lookup_app_r by lia. rewrite Nat.sub_diag. reflexivity.
    + rewrite lookup_app_r by lia. rewrite Nat.sub_diag. reflexivity.
  - rewrite lookup_app_r by lia. rewrite Nat.sub_diag. reflexivity.
Qed.

(** Settling a pending promise nobody waits on queues nothing. *)
Lemma settle_pending h st s :
  promises s !! h = Some {| pstate := Pending; reactions := [] |} ->
  settle h st s
  = set_jobs (jobs s ++ [])
      (set_promises (<[h := {| pstate := st; reactions := [] |}]> (promises s)) s).
Proof. intros H. unfold settle. rewrite H. reflexivity. Qed.

Lemma settle_pending_state h st s :
  promises s !! h = Some {| pstate := Pending; reactions := [] |} ->
  state_of h (settle h st s) = Some st /\ jobs (settle h st s) = jobs s.
Proof.
  intros H. rewrite settle_pending by exact H. unfold state_of. simpl.
  rewrite list_lookup_insert_eq by (eapply lookup_lt_Some; exact H).
  rewrite app_nil_r. split; reflexivity.
Qed.

Lemma run_jobs_idle fuel s : jobs s = [] -> run_jobs fuel s = s.
Proof. intros H. destruct fuel; simpl; [|rewrite H]; reflexivity. Qed.

(** A rejection passes through a reaction job: no callback is run. *)
Lemma run_job_rejected r reason s :
  run_job {| job_reaction := r; job_arg := Rejected reason |} s
  = reject (derived r) reason s.
Proof. reflexivity. Qed.

Lemma fulfils_with_lt p v s : fulfils_with p v s -> p < length (promises s).
Proof. intros [[Hp|Hp] _]; eapply lookup_lt_Some; exact Hp. Qed.

Lemma then_fulfill_run p cb v s fuel :
  fulfils_with p v s ->
  run_jobs (S fuel) (fulfill p v (snd (then_ p cb s)))
  = run_jobs fuel
      (run_job
         {| job_reaction :=
              {| on_fulfilled := cb; derived := length (promises s) |};
            job_arg := Fulfilled v |}
         (fulfilled_at p v s)).
Proof.
  intros [Hp Hj]. destruct s as [w ps js lg]. simpl in Hp, Hj. subst js.
  rewrite then_eq. unfold subscribe, fulfill, settle, fulfilled_at. simpl.
  destruct Hp as [Hp|Hp]; pose proof (lookup_lt_Some _ _ _ Hp) as Hlt;
    rewrite (lookup_app_l_Some _ _ _ _ Hp); simpl.
  - rewrite list_lookup_insert_eq by (rewrite length_app; simpl; lia).
    simpl. rewrite list_insert_insert_eq. reflexivity.
  - rewrite (lookup_app_l_Some _ _ _ _ Hp). simpl.
    rewrite (list_insert_id _ _ _ (lookup_app_l_Some _ _ _ _ Hp)).
    reflexivity.
Qed.

Lemma fulfilled_at_derived p v s :
  p < length (promises s) ->
  promises (fulfilled_at p v s) !! length (promises s)
  = Some {| pstate := Pending; reactions := [] |}.
Proof.
  intros Hlt. unfold fulfilled_at. simpl.
  rewrite list_lookup_insert_ne by lia.
  rewrite lookup_app_r by lia. rewrite Nat.sub_diag. reflexivity.
Qed.

End Frames.

(** ** Jobs that only pass a settlement on call nothing *)

Section Adoption.

Context {W : Type}.
Implicit Types (s : State W).

Lemma settle_adopts d st s : adopts_only d s -> adopts_only d (settle d st s).
Proof.
  intros H. unfold settle.
  destruct (promises s !! d) as [o|] eqn:Ho; [|exact H].
  destruct (pstate o); try exact H.
  destruct H as [Hj Hd]. rewrite (Hd o Ho). split; simpl.
  - rewrite app_nil_r. exact Hj.
  - intros o'. rewrite list_lookup_insert_eq by (eapply lookup_lt_Some; exact Ho).
    intros [= <-]. reflexivity.
Qed.

Lemma subscribe_adopts d q s :
  q <> d -> adopts_only d s ->
  adopts_only d (subscribe q {| on_fulfilled := CbAdopt; derived := d |} s).
Proof.
  intros Hq H. unfold subscribe.
  destruct (promises s !! q) as [o|] eqn:Ho; [|exact H].
  destruct H as [Hj Hd].
  destruct (pstate o); split; simpl; try assumption.
  - intros o'. rewrite list_lookup_insert_ne by exact Hq. apply Hd.
  - apply Forall_app. split; [exact Hj|]. repeat constructor.
  - apply Forall_app. split; [exact Hj|]. repeat constructor.
Qed.

Lemma resolve_adopts d x s : adopts_only d s -> adopts_only d (resolve d x s).
Proof.
  intros H. unfold resolve, fulfill, reject.
  destruct x; try (apply settle_adopts; exact H).
  destruct (Nat.eqb_spec h d) as [->|Hne].
  - apply settle_adopts; exact H.
  - apply subscribe_adopts; assumption.
Qed.

Lemma run_job_adopts d j s :
  job_reaction j = {| on_fulfilled := CbAdopt; derived := d |} ->
  adopts_only d s ->
  adopts_only d (run_job j s) /\
  log (run_job j s) = log s /\ world (run_job j s) = world s.
Proof.
  intros Hr H. unfold run_job. rewrite Hr. simpl.
  destruct (job_arg j); simpl.
  - auto.
  - split; [apply resolve_adopts; exact H|].
    split; [apply resolve_log | apply resolve_world].
  - split; [apply settle_adopts; exact H|].
    split; [apply settle_log | apply settle_world].
Qed.

Lemma run_jobs_adopts fuel d s :
  adopts_only d s ->
  log (run_jobs fuel s) = log s /\ world (run_jobs fuel s) = world s.
Proof.
  revert s. induction fuel as [|fuel IH]; intros s H; simpl; [auto|].
  destruct (jobs s) as [|j rest] eqn:Hjobs; [auto|].
  destruct H as [Hj Hd]. rewrite Hjobs in Hj.
  apply Forall_cons in Hj as [Hhead Hrest].
  assert (Hs : adopts_only d (set_jobs rest s)) by (split; assumption).
  destruct (run_job_adopts d j _ Hhead Hs) as (Ha & Hl & Hw).
  destruct (IH _ Ha) as [IHl IHw].
  rewrite IHl, IHw, Hl, Hw. auto.
Qed.

(** The state in which the reaction job runs. *)
Lemma fulfilled_at_adopts p v s :
  fulfils_with p v s ->
  adopts_only (length (promises s)) (fulfilled_at p v s).
Proof.
  intros Hq. pose proof (fulfils_with_lt _ _ _ Hq) as Hlt.
  destruct Hq as [_ Hj].
  split.
  - simpl. rewrite Hj. constructor.
  - intros o. rewrite (fulfilled_at_derived p v s Hlt). intros [= <-].
    reflexivity.
Qed.

(** A call changes neither the promises nor the queue. *)
Lemma call_adopts {A : Type} d ev (f : Code W A) s :
  adopts_only d s -> adopts_only d (snd (call ev f s)).
Proof. intros H. rewrite call_eq. exact H. Qed.

End Adoption.

(** ** [match] and [pair] on the two kinds of payload *)

Section MatchPair.

Context {W : Type}.
Implicit Types (s : State W) (f g : Fn W) (v e x : Value).

Lemma ok_match_plain v f s :
  instanceof_Promise v = false ->
  OkTs.match_ v f s
  = (fst (f v (world s)), set_world (snd (f v (world s))) (add_log (EvOnOk v) s)).
Proof.
  intros H. rewrite <- call_eq. destruct v; try reflexivity. discriminate H.
Qed.

Lemma err_match_plain e f g s :
  instanceof_Promise e = false ->
  ErrTs.match_ e f g s
  = (fst (g e (world s)), set_world (snd (g e (world s))) (add_log (EvOnErr e) s)).
Proof.
  intros H. rewrite <- call_eq. destruct e; try reflexivity. discriminate H.
Qed.

Lemma ok_pair_plain v s :
  instanceof_Promise v = false ->
  OkTs.pair v s = (Normal (VArray [v; VUndefined]), s).
Proof. intros H. destruct v; try reflexivity. discriminate H. Qed.

Lemma err_pair_plain e s :
  instanceof_Promise e = false ->
  ErrTs.pair e s = (Normal (VArray [VUndefined; e]), s).
Proof. intros H. destruct e; try reflexivity. discriminate H. Qed.

(** Once the payload fulfils with [x], the job left by [then] runs the
    callback on [x] and resolves the derived promise with what it
    returned, or rejects it with what it threw. *)
Lemma reaction_runs p cb x s fuel :
  fulfils_with p x s ->
  run_jobs (S fuel) (fulfill p x (snd (then_ p cb s)))
  = run_jobs fuel
      (match run_callback cb x (fulfilled_at p x s) with
       | (Normal y, s') => resolve (length (promises s)) y s'
       | (Throw e, s') => reject (length (promises s)) e s'
       end).
Proof. intros H. rewrite then_fulfill_run by exact H. reflexivity. Qed.

(** The handler given to [match] is called once, on [x], and nothing
    else is. *)
Lemma handler_runs_once p (cb : Callback W) ev (h : Fn W) x s fuel :
  fulfils_with p x s ->
  run_callback cb x = call ev (h x) ->
  let s' := run_jobs (S fuel) (fulfill p x (snd (then_ p cb s))) in
  log s' = log s ++ [ev] /\ world s' = snd (h x (world s)).
Proof.
  intros Hq Hcb. cbv zeta. rewrite reaction_runs by exact Hq. rewrite Hcb.
  pose proof (call_adopts _ ev (h x) _ (fulfilled_at_adopts p x s Hq)) as Ha.
  rewrite call_eq in *. simpl in *.
  destruct (h x (world s)) as [[y|e] w]; simpl in *.
  - destruct (run_jobs_adopts fuel _ _ (resolve_adopts _ y _ Ha)) as [-> ->].
    rewrite resolve_log, resolve_world. auto.
  - destruct (run_jobs_adopts fuel _ _ (settle_adopts _ (Rejected e) _ Ha)) as [Hl Hw].
    unfold reject. rewrite Hl, Hw, settle_log, settle_world. auto.
Qed.

(** The derived promise settles as the callback completed. *)
Lemma derived_settles p (cb : Callback W) x s fuel c s' :
  fulfils_with p x s ->
  run_callback cb x (fulfilled_at p x s) = (c, s') ->
  promises s' = promises (fulfilled_at p x s) ->
  jobs s' = [] ->
  match c with
  | Normal y =>
      instanceof_Promise y = false ->
      state_of (length (promises s))
        (run_jobs (S fuel) (fulfill p x (snd (then_ p cb s))))
      = Some (Fulfilled y)
  | Throw e =>
      state_of (length (promises s))
        (run_jobs (S fuel) (fulfill p x (snd (then_ p cb s))))
      = Some (Rejected e)
  end.
Proof.
  intros Hq Hcb Hps Hjs. rewrite reaction_runs by exact Hq. rewrite Hcb.
  pose proof (fulfils_with_lt _ _ _ Hq) as Hlt.
  assert (Hd : promises s' !! length (promises s)
               = Some {| pstate := Pending; reactions := [] |})
    by (rewrite Hps; apply fulfilled_at_derived; exact Hlt).
  assert (Hset : forall st,
            state_of (length (promises s))
              (run_jobs fuel (settle (length (promises s)) st s')) = Some st).
  { intros st. destruct (settle_pending_state _ st _ Hd) as [Hst Hj].
    rewrite run_jobs_idle by (rewrite Hj; exact Hjs). exact Hst. }
  destruct c as [y|e].
  - intros Hy. unfold resolve.
    destruct y; try apply Hset. discriminate Hy.
  - apply Hset.
Qed.

(** The payload is rejected instead: the job calls no handler, and the
    promise [then] returned is rejected for the same reason. *)
Lemma rejection_passes_through p (cb : Callback W) reason s fuel :
  promises s !! p = Some {| pstate := Pending; reactions := [] |} ->
  jobs s = [] ->
  let s' := run_jobs (S fuel) (reject p reason (snd (then_ p cb s))) in
  log s' = log s /\ world s' = world s /\
  state_of (length (promises s)) s' = Some (Rejected reason).
Proof.
  intros Hp Hj. destruct s as [w ps js lg]. simpl in Hp, Hj. subst js.
  pose proof (lookup_lt_Some _ _ _ Hp) as Hlt.
  rewrite then_eq. unfold subscribe, reject, settle. simpl.
  rewrite (lookup_app_l_Some _ _ _ _ Hp). simpl.
  rewrite list_lookup_insert_eq by (rewrite length_app; simpl; lia).
  simpl. unfold run_job, reject. simpl.
  match goal with |- context [settle _ _ ?st] => set (sr := st) end.
  assert (Hd : promises sr !! length ps
               = Some {| pstate := Pending; reactions := [] |}).
  { subst sr. simpl. rewrite !list_lookup_insert_ne by lia.
    rewrite lookup_app_r by lia. rewrite Nat.sub_diag. reflexivity. }
  destruct (settle_pending_state _ (Rejected reason) _ Hd) as [Hst Hjobs].
  rewrite run_jobs_idle by (rewrite Hjobs; reflexivity).
  rewrite settle_log, settle_world. auto.
Qed.

End MatchPair.

(** Once the payload fulfils with [x], the promise [then] returned is
    resolved with what the handler returns on [x], or rejected with what
    it throws. *)
Lemma handler_settles_derived {W : Type} (p : nat) (cb : Callback W)
    (ev : Event) (h : Fn W) (x : Value) (s : State W) (fuel : nat) :
  fulfils_with p x s ->
  run_callback cb x = call ev (h x) ->
  match h x (world s) with
  | (Normal y, w) =>
      run_jobs (S fuel) (fulfill p x (snd (then_ p cb s)))
      = run_jobs fuel
          (resolve (length (promises s)) y
             (set_world w (add_log ev (fulfilled_at p x s)))) /\
      (instanceof_Promise y = false ->
       state_of (length (promises s))
         (run_jobs (S fuel) (fulfill p x (snd (then_ p cb s))))
       = Some (Fulfilled y))
  | (Throw e, _) =>
      state_of (length (promises s))
        (run_jobs (S fuel) (fulfill p x (snd (then_ p cb s))))
      = Some (Rejected e)
  end.
Proof.
  intros Hq Hcb.
  pose proof (reaction_runs p cb x s fuel Hq) as Hrun.
  pose proof (fun c s' => derived_settles p cb x s fuel c s' Hq) as Hset.
  rewrite Hcb, call_eq in Hrun. rewrite Hcb in Hset.
  setoid_rewrite call_eq in Hset.
  change (world (fulfilled_at p x s)) with (world s) in Hrun, Hset.
  destruct (h x (world s)) as [[y|e] w] eqn:Hh.
  - split; [exact Hrun|].
    exact (Hset (Normal y) _ eq_refl eq_refl (proj2 Hq)).
  - exact (Hset (Throw e) _ eq_refl eq_refl (proj2 Hq)).
Qed.

(** ** The instance contract: [match], [pair], [unwrap], tags *)

(** C1. [ok(v).match(f, g)] returns what [f] returns on the payload and
    calls nothing else; [err(e).match(f, g)] returns what [g] returns on the
    payload and calls nothing else.  On a payload that is not a promise the
    call is made by [match] itself; on a promise [match] calls nothing, and
    once the promise fulfils with [x] the one call made is that of the same
    handler on [x].  The other handler is dropped on entry: the instance
    and all that follows are the same whatever it is. *)
Theorem match_invokes_exactly_one_handler {W : Type}
    (v x : Value) (p : nat) (t : option string) (f g : Fn W)
    (s : State W) (fuel : nat) :
  instanceof_Promise v = false ->
  fulfils_with p x s ->
  match_ (OkTs.ok v t) f g s
  = (fst (f v (world s)),
     set_world (snd (f v (world s))) (add_log (EvOnOk v) s)) /\
  match_ (ErrTs.err v t) f g s
  = (fst (g v (world s)),
     set_world (snd (g v (world s))) (add_log (EvOnErr v) s)) /\
  log (snd (match_ (OkTs.ok (VPromise p) t) f g s)) = log s /\
  world (snd (match_ (OkTs.ok (VPromise p) t) f g s)) = world s /\
  log (snd (match_ (ErrTs.err (VPromise p) t) f g s)) = log s /\
  world (snd (match_ (ErrTs.err (VPromise p) t) f g s)) = world s /\
  (let s' := run_jobs (S fuel)
               (fulfill p x (snd (match_ (OkTs.ok (VPromise p) t) f g s))) in
   log s' = log s ++ [EvOnOk x] /\ world s' = snd (f x (world s))) /\
  (let s' := run_jobs (S fuel)
               (fulfill p x (snd (match_ (ErrTs.err (VPromise p) t) f g s))) in
   log s' = log s ++ [EvOnErr x] /\ world s' = snd (g x (world s))) /\
  (forall payload g',
     match_ (OkTs.ok payload t) f g = match_ (OkTs.ok payload t) f g') /\
  (forall payload f',
     match_ (ErrTs.err payload t) f g = match_ (ErrTs.err payload t) f' g).
Proof.
  intros Hv Hq. repeat split.
  - apply ok_match_plain; exact Hv.
  - apply err_match_plain; exact Hv.
  - apply then_log.
  - apply then_world.
  - apply then_log.
  - apply then_world.
  - apply (handler_runs_once p (CbOkMatch f) (EvOnOk x) f x s fuel Hq eq_refl).
  - apply (handler_runs_once p (CbOkMatch f) (EvOnOk x) f x s fuel Hq eq_refl).
  - apply (handler_runs_once p (CbErrMatch g) (EvOnErr x) g x s fuel Hq eq_refl).
  - apply (handler_runs_once p (CbErrMatch g) (EvOnErr x) g x s fuel Hq eq_refl).
Qed.

Lemma match_invokes_exactly_one_handler_witness :
  instanceof_Promise (VNum 1) = false /\
  fulfils_with 0 (VError "Error" "late") (one_promise 0 Pending) /\
  fst (match_ (OkTs.ok (VNum 1) None) identity message (one_promise 0 Pending))
  = Normal (VNum 1) /\
  log (run_jobs 1
         (fulfill 0 (VError "Error" "late")
            (snd (match_ (ErrTs.err (VPromise 0) None) identity message
                    (one_promise 0 Pending)))))
  = [EvOnErr (VError "Error" "late")].
Proof.
  assert (Hv : instanceof_Promise (VNum 1) = false) by reflexivity.
  assert (Hq : fulfils_with 0 (VError "Error" "late") (one_promise 0 Pending))
    by (split; [left|]; reflexivity).
  pose proof (match_invokes_exactly_one_handler
                (VNum 1) (VError "Error" "late") 0 None identity message
                (one_promise 0 Pending) 0 Hv Hq) as H.
  split; [exact Hv|]. split; [exact Hq|]. split.
  - destruct H as [H _]. rewrite H. reflexivity.
  - destruct H as (_ & _ & _ & _ & _ & _ & _ & [H _] & _). exact H.
Defined.

(** C5. [match] keeps the payload's kind.  On a payload that is not a
    promise it returns the handler's completion itself and creates no
    promise and no job.  On a promise it returns a new promise, pending at
    that point; once the payload fulfils with [x] the new promise is
    resolved with what the handler returns on [x] (fulfilled with it when
    that is not a promise) or rejected with what the handler throws. *)
Theorem match_preserves_pending {W : Type}
    (v x : Value) (p : nat) (t : option string) (f g : Fn W)
    (s : State W) (fuel : nat) :
  instanceof_Promise v = false ->
  fulfils_with p x s ->
  let d := length (promises s) in
  let ok_later :=
    run_jobs (S fuel)
      (fulfill p x (snd (match_ (OkTs.ok (VPromise p) t) f g s))) in
  let err_later :=
    run_jobs (S fuel)
      (fulfill p x (snd (match_ (ErrTs.err (VPromise p) t) f g s))) in
  (fst (match_ (OkTs.ok v t) f g s) = fst (f v (world s)) /\
   promises (snd (match_ (OkTs.ok v t) f g s)) = promises s /\
   jobs (snd (match_ (OkTs.ok v t) f g s)) = jobs s) /\
  (fst (match_ (ErrTs.err v t) f g s) = fst (g v (world s)) /\
   promises (snd (match_ (ErrTs.err v t) f g s)) = promises s /\
   jobs (snd (match_ (ErrTs.err v t) f g s)) = jobs s) /\
  (state_of d s = None /\
   fst (match_ (OkTs.ok (VPromise p) t) f g s) = Normal (VPromise d) /\
   state_of d (snd (match_ (OkTs.ok (VPromise p) t) f g s)) = Some Pending) /\
  (fst (match_ (ErrTs.err (VPromise p) t) f g s) = Normal (VPromise d) /\
   state_of d (snd (match_ (ErrTs.err (VPromise p) t) f g s)) = Some Pending) /\
  match f x (world s) with
  | (Normal y, w) =>
      ok_later
      = run_jobs fuel
          (resolve d y (set_world w (add_log (EvOnOk x) (fulfilled_at p x s)))) /\
      (instanceof_Promise y = false -> state_of d ok_later = Some (Fulfilled y))
  | (Throw e, _) => state_of d ok_later = Some (Rejected e)
  end /\
  match g x (world s) with
  | (Normal y, w) =>
      err_later
      = run_jobs fuel
          (resolve d y (set_world w (add_log (EvOnErr x) (fulfilled_at p x s)))) /\
      (instanceof_Promise y = false -> state_of d err_later = Some (Fulfilled y))
  | (Throw e, _) => state_of d err_later = Some (Rejected e)
  end.
Proof.
  intros Hv Hq d ok_later err_later.
  pose proof (fulfils_with_lt _ _ _ Hq) as Hlt.
  split; [|split; [|split; [|split; [|split]]]].
  - change (match_ (OkTs.ok v t) f g s) with (OkTs.match_ v f s).
    rewrite ok_match_plain by exact Hv. repeat split.
  - change (match_ (ErrTs.err v t) f g s) with (ErrTs.match_ v f g s).
    rewrite err_match_plain by exact Hv. repeat split.
  - split; [|split].
    + unfold state_of, d. rewrite lookup_ge_None_2 by lia. reflexivity.
    + reflexivity.
    + apply (then_pending p (CbOkMatch f) s Hlt).
  - split.
    + reflexivity.
    + apply (then_pending p (CbErrMatch g) s Hlt).
  - apply (handler_settles_derived p (CbOkMatch f) (EvOnOk x) f x s fuel Hq eq_refl).
  - apply (handler_settles_derived p (CbErrMatch g) (EvOnErr x) g x s fuel Hq eq_refl).
Qed.

Lemma match_preserves_pending_witness :
  instanceof_Promise (VNum 1) = false /\
  fulfils_with 0 (VNum 5) (one_promise 0 (Fulfilled (VNum 5))) /\
  fst (match_ (OkTs.ok (VNum 1) None) identity message
         (one_promise 0 (Fulfilled (VNum 5))))
  = Normal (VNum 1) /\
  state_of 1
    (run_jobs 1
       (fulfill 0 (VNum 5)
          (snd (match_ (OkTs.ok (VPromise 0) None) identity message
                  (one_promise 0 (Fulfilled (VNum 5)))))))
  = Some (Fulfilled (VNum 5)).
Proof.
  assert (Hv : instanceof_Promise (VNum 1) = false) by reflexivity.
  assert (Hq : fulfils_with 0 (VNum 5) (one_promise 0 (Fulfilled (VNum 5))))
    by (split; [right|]; reflexivity).
  pose proof (match_preserves_pending
                (VNum 1) (VNum 5) 0 None identity message
                (one_promise 0 (Fulfilled (VNum 5))) 0 Hv Hq) as H.
  cbv zeta in H.
  split; [exact Hv|]. split; [exact Hq|]. split.
  - destruct H as [[H _] _]. exact H.
  - destruct H as (_ & _ & _ & _ & H & _). exact (proj2 H eq_refl).
Defined.

(** C6. [ok(v).pair()] is [[v, undefined]] and [err(e).pair()] is
    [[undefined, e]] when the payload is not a promise.  On a promise,
    [pair] returns a new promise, pending at that point, and once the
    payload fulfils with [x] the new promise is fulfilled with
    [[x, undefined]] for an [Ok], [[undefined, x]] for an [Err]. *)
Theorem pair_one_slot {W : Type}
    (v x : Value) (p : nat) (t : option string) (s : State W) (fuel : nat) :
  instanceof_Promise v = false ->
  fulfils_with p x s ->
  let d := length (promises s) in
  pair (OkTs.ok v t) s = (Normal (VArray [v; VUndefined]), s) /\
  pair (ErrTs.err v t) s = (Normal (VArray [VUndefined; v]), s) /\
  (fst (pair (OkTs.ok (VPromise p) t) s) = Normal (VPromise d) /\
   state_of d (snd (pair (OkTs.ok (VPromise p) t) s)) = Some Pending) /\
  (fst (pair (ErrTs.err (VPromise p) t) s) = Normal (VPromise d) /\
   state_of d (snd (pair (ErrTs.err (VPromise p) t) s)) = Some Pending) /\
  state_of d
    (run_jobs (S fuel) (fulfill p x (snd (pair (OkTs.ok (VPromise p) t) s))))
  = Some (Fulfilled (VArray [x; VUndefined])) /\
  state_of d
    (run_jobs (S fuel) (fulfill p x (snd (pair (ErrTs.err (VPromise p) t) s))))
  = Some (Fulfilled (VArray [VUndefined; x])).
Proof.
  intros Hv Hq d.
  pose proof (fulfils_with_lt _ _ _ Hq) as Hlt.
  split; [|split; [|split; [|split; [|split]]]].
  - apply ok_pair_plain; exact Hv.
  - apply err_pair_plain; exact Hv.
  - split; [reflexivity | apply (then_pending p CbOkPair s Hlt)].
  - split; [reflexivity | apply (then_pending p CbErrPair s Hlt)].
  - apply (derived_settles p CbOkPair x s fuel
             (Normal (VArray [x; VUndefined])) _ Hq eq_refl eq_refl (proj2 Hq)).
    reflexivity.
  - apply (derived_settles p CbErrPair x s fuel
             (Normal (VArray [VUndefined; x])) _ Hq eq_refl eq_refl (proj2 Hq)).
    reflexivity.
Qed.

Lemma pair_one_slot_witness :
  instanceof_Promise (VStr "success") = false /\
  fulfils_with 0 (VError "CustomError" "async error") (one_promise 0 Pending) /\
  fst (pair (OkTs.ok (VStr "success") None) (one_promise 0 Pending))
  = Normal (VArray [VStr "success"; VUndefined]) /\
  state_of 1
    (run_jobs 1
       (fulfill 0 (VError "CustomError" "async error")
          (snd (pair (ErrTs.err (VPromise 0) None) (one_promise 0 Pending)))))
  = Some (Fulfilled (VArray [VUndefined; VError "CustomError" "async error"])).
Proof.
  assert (Hv : instanceof_Promise (VStr "success") = false) by reflexivity.
  assert (Hq : fulfils_with 0 (VError "CustomError" "async error") (one_promise 0 Pending))
    by (split; [left|]; reflexivity).
  pose proof (pair_one_slot (VStr "success") (VError "CustomError" "async error")
                0 None (one_promise 0 Pending) 0 Hv Hq) as H.
  cbv zeta in H.
  split; [exact Hv|]. split; [exact Hq|]. split.
  - destruct H as [H _]. rewrite H. reflexivity.
  - destruct H as (_ & _ & _ & _ & _ & H). exact H.
Defined.

(** C7. [ok(v).unwrap()] is [v] and [err(e).unwrap()] is [e], whatever the
    tag: [unwrap] is a plain function of the instance, it reads no state
    and creates no promise, and a payload that is a promise comes back as
    the same handle. *)
Theorem unwrap_roundtrip (v e : Value) (t t' : option string) (h : nat) :
  unwrap (OkTs.ok v t) = v /\
  unwrap (ErrTs.err e t') = e /\
  unwrap (OkTs.ok (VPromise h) t) = VPromise h /\
  unwrap (ErrTs.err (VPromise h) t') = VPromise h.
Proof. repeat split. Qed.

(** C8. The default tags are ["Ok"] and ["Err"]; a tag given by the caller
    is the instance's tag; and the tag is all that it changes: instances
    built from the same payload with any two tags (given or not) have the
    same [value] or [error] and the same [match], [pair] and [unwrap]. *)
Theorem tag_only_overlays_tag {W : Type}
    (v : Value) (c : string) (t1 t2 : option string) (f g : Fn W) :
  tag (OkTs.ok v None) = "Ok" /\
  tag (ErrTs.err v None) = "Err" /\
  tag (OkTs.ok v (Some c)) = c /\
  tag (ErrTs.err v (Some c)) = c /\
  (value (OkTs.ok v t1) = value (OkTs.ok v t2) /\
   error (OkTs.ok v t1) = error (OkTs.ok v t2) /\
   isOk (OkTs.ok v t1) = isOk (OkTs.ok v t2) /\
   match_ (OkTs.ok v t1) f g = match_ (OkTs.ok v t2) f g /\
   @pair W (OkTs.ok v t1) = pair (OkTs.ok v t2) /\
   unwrap (OkTs.ok v t1) = unwrap (OkTs.ok v t2)) /\
  (value (ErrTs.err v t1) = value (ErrTs.err v t2) /\
   error (ErrTs.err v t1) = error (ErrTs.err v t2) /\
   isOk (ErrTs.err v t1) = isOk (ErrTs.err v t2) /\
   match_ (ErrTs.err v t1) f g = match_ (ErrTs.err v t2) f g /\
   @pair W (ErrTs.err v t1) = pair (ErrTs.err v t2) /\
   unwrap (ErrTs.err v t1) = unwrap (ErrTs.err v t2)).
Proof. repeat split. Qed.

(** ** [tcf] *)

Section TcfFacts.

Context {W : Type}.
Implicit Types (s : State W) (tryFn : Thunk W) (catchFn : Fn W).

Lemma count_finally_app l1 l2 :
  count_finally (l1 ++ l2) = count_finally l1 + count_finally l2.
Proof.
  induction l1 as [|ev l1 IH]; [reflexivity|].
  destruct ev; simpl; rewrite IH; reflexivity.
Qed.

Lemma count_finally_try_catch tryFn (w : W) :
  count_finally (try_catch_events tryFn w) = 0.
Proof. unfold try_catch_events. destruct (tryFn w) as [[?|?] ?]; reflexivity. Qed.

(** The state in which the [finally] block is entered. *)
Lemma tcf_without_finally tryFn catchFn tagError tagOk s :
  let s' := snd (TcfTs.tcf tryFn catchFn None tagError tagOk s) in
  log s' = log s ++ try_catch_events tryFn (world s) /\
  world s' = before_finally tryFn catchFn (world s).
Proof.
  unfold TcfTs.tcf, try_catch_finally, TcfTs.call_finally, bind, call, ret,
    try_catch_events, before_finally.
  destruct tagOk, tagError; simpl;
    destruct (tryFn (world s)) as [[v|e] w1]; simpl;
    try (split; reflexivity);
    destruct (catchFn e w1) as [[e'|x] w2]; simpl;
    rewrite <- app_assoc; split; reflexivity.
Qed.

(** [finally] does not change what was called before it, and runs on the
    state that was reached without it. *)
Lemma tcf_finally_last tryFn catchFn (fin : Thunk W) tagError tagOk s :
  let s1 := snd (TcfTs.tcf tryFn catchFn None tagError tagOk s) in
  let s' := snd (TcfTs.tcf tryFn catchFn (Some fin) tagError tagOk s) in
  log s' = log s1 ++ [EvFinally] /\ world s' = snd (fin (world s1)).
Proof.
  unfold TcfTs.tcf, try_catch_finally, TcfTs.call_finally, bind, call, ret.
  destruct tagOk, tagError; simpl;
    destruct (tryFn (world s)) as [[v|e] w1]; simpl;
    try (destruct (catchFn e w1) as [[e'|x] w2]; simpl);
    destruct (fin _) as [[y|z] w3]; simpl; split; reflexivity.
Qed.

(** The completion of [tcf] when [finally] is absent or returns. *)
Lemma tcf_completion tryFn catchFn finallyFn tagError tagOk s :
  finally_returns finallyFn (before_finally tryFn catchFn (world s)) ->
  fst (TcfTs.tcf tryFn catchFn finallyFn tagError tagOk s)
  = match tryFn (world s) with
    | (Normal v, _) => Normal (OkTs.ok v tagOk)
    | (Throw e, w) =>
        match catchFn e w with
        | (Normal e', _) => Normal (ErrTs.err e' tagError)
        | (Throw x, _) => Throw x
        end
    end.
Proof.
  unfold finally_returns, before_finally, TcfTs.tcf, try_catch_finally,
    TcfTs.call_finally, bind, call, ret.
  destruct finallyFn as [fin|]; intros Hfin;
    destruct tagOk, tagError; simpl;
    destruct (tryFn (world s)) as [[v|e] w1]; simpl in *;
    try (destruct (catchFn e w1) as [[e'|x] w2]; simpl in * );
    try reflexivity;
    destruct Hfin as (y & w3 & ->); reflexivity.
Qed.

End TcfFacts.

(** C2, for invocations whose [finally] operation is absent or returns:
    if [try] returns [v], [tcf] returns [ok(v, tagOk)]; if [try] throws a
    fault, the [catch] transformer is called on that fault, and if it
    returns [e'], [tcf] returns [err(e', tagError)]: the transformer's
    value, not the fault. *)
Theorem tcf_wraps_outcome_when_finally_returns {W : Type}
    (tryFn : Thunk W) (catchFn : Fn W) (finallyFn : option (Thunk W))
    (tagError tagOk : option string) (s : State W) :
  finally_returns finallyFn (before_finally tryFn catchFn (world s)) ->
  tcf_wraps_outcome tryFn catchFn finallyFn tagError tagOk s /\
  match tryFn (world s) with
  | (Normal v, _) => True
  | (Throw e, _) =>
      exists post,
        log (snd (TcfTs.tcf tryFn catchFn finallyFn tagError tagOk s))
        = log s ++ [EvTry; EvCatch e] ++ post
  end.
Proof.
  intros Hfin. split.
  - unfold tcf_wraps_outcome. rewrite tcf_completion by exact Hfin.
    destruct (tryFn (world s)) as [[v|e] w1]; [reflexivity|].
    destruct (catchFn e w1) as [[e'|x] w2]; [reflexivity|exact I].
  - destruct (tryFn (world s)) as [[v|e] w1] eqn:Htry; [exact I|].
    destruct finallyFn as [fin|].
    + destruct (tcf_finally_last tryFn catchFn fin tagError tagOk s) as [Hl _].
      destruct (tcf_without_finally tryFn catchFn tagError tagOk s) as [Hl1 _].
      exists [EvFinally]. rewrite Hl, Hl1. unfold try_catch_events.
      rewrite Htry, <- app_assoc. reflexivity.
    + destruct (tcf_without_finally tryFn catchFn tagError tagOk s) as [Hl1 _].
      exists []. rewrite Hl1. unfold try_catch_events. rewrite Htry. reflexivity.
Qed.

Lemma tcf_wraps_outcome_when_finally_returns_witness :
  finally_returns (Some count_call)
    (before_finally (throws (VError "CustomError" "boom")) handled 0) /\
  fst (TcfTs.tcf (throws (VError "CustomError" "boom")) handled
         (Some count_call) (Some "FAILED") None (s0 0))
  = Normal (ErrI "FAILED" (VError "HandledError" "boom")).
Proof.
  assert (Hfin : finally_returns (Some count_call)
                   (before_finally (throws (VError "CustomError" "boom"))
                      handled 0))
    by (exists VUndefined, 1; reflexivity).
  split; [exact Hfin|].
  exact (proj1 (tcf_wraps_outcome_when_finally_returns
                  (throws (VError "CustomError" "boom")) handled
                  (Some count_call) (Some "FAILED") None (s0 0) Hfin)).
Defined.

(** C2 without the condition on [finally] fails: [try] returns ["x"],
    [finally] throws, and [tcf] throws the fault of [finally] instead of
    returning [ok("x")]. *)
Lemma tcf_finally_fault_replaces_ok :
  fst (TcfTs.tcf (returns (VStr "x")) handled
         (Some (throws (VError "Error" "cleanup failed"))) None None (s0 tt))
  = Throw (VError "Error" "cleanup failed") /\
  ~ tcf_wraps_outcome (returns (VStr "x")) handled
      (Some (throws (VError "Error" "cleanup failed"))) None None (s0 tt).
Proof.
  split; [reflexivity|].
  unfold tcf_wraps_outcome. simpl. discriminate.
Qed.

(** C3. When a [finally] operation is given, every invocation of [tcf]
    calls it exactly once, as the last call: after [try] when [try]
    returns, after [try] and [catch] when [try] throws, whether [catch]
    returns or throws.  It runs once on the host's state left by them. *)
Theorem finally_runs_exactly_once {W : Type}
    (tryFn : Thunk W) (catchFn : Fn W) (fin : Thunk W)
    (tagError tagOk : option string) (s : State W) :
  let s' := snd (TcfTs.tcf tryFn catchFn (Some fin) tagError tagOk s) in
  log s' = log s ++ try_catch_events tryFn (world s) ++ [EvFinally] /\
  count_finally (log s') = S (count_finally (log s)) /\
  world s' = snd (fin (before_finally tryFn catchFn (world s))).
Proof.
  destruct (tcf_finally_last tryFn catchFn fin tagError tagOk s) as [Hl Hw].
  destruct (tcf_without_finally tryFn catchFn tagError tagOk s) as [Hl1 Hw1].
  cbv zeta in *. rewrite Hl, Hw, Hl1, Hw1. repeat split.
  - rewrite <- app_assoc. reflexivity.
  - rewrite !count_finally_app, count_finally_try_catch. simpl. lia.
Qed.

(** [catch] throws: [tcf] throws its fault, and [finally] has run once. *)
Example finally_runs_when_catch_throws :
  let r := TcfTs.tcf (throws (VStr "first")) (fun _ => throws (VStr "second"))
             (Some count_call) None None (s0 0) in
  fst r = Throw (VStr "second") /\
  world (snd r) = 1 /\
  log (snd r) = [EvTry; EvCatch (VStr "first"); EvFinally].
Proof. repeat split. Qed.

(** ** [result] *)

Section ResultFacts.

Context {W : Type}.
Implicit Types (s : State W) (value : Value) (config : option (ResultConfig W)).

Lemma truthy_nonempty (t : option string) :
  t <> Some "" -> truthy t = true -> exists c, t = Some c.
Proof. destruct t as [c|]; [eauto | discriminate]. Qed.

Lemma truthy_false (t : option string) :
  t <> Some "" -> truthy t = false -> t = None.
Proof.
  destruct t as [c|]; [|reflexivity]. simpl. intros Hne H.
  apply negb_false_iff, String.eqb_eq in H. subst c. contradiction.
Qed.

(** result.ts: the predicate is applied once, to the value; its answer
    selects the variant; a tag is used when it is truthy. *)
Lemma result_ts_eq value config s :
  let isError := (config ?. isError) ?? ResultTs.defaultIsError in
  ResultTs.result value config s
  = (match fst (isError value (world s)) with
     | Normal true =>
         Normal (ErrTs.err value
                   (if truthy (config ?. tagError) then config ?. tagError
                    else None))
     | Normal false =>
         Normal (OkTs.ok value
                   (if truthy (config ?. tagOk) then config ?. tagOk
                    else None))
     | Throw e => Throw e
     end,
     set_world (snd (isError value (world s))) (add_log (EvIsError value) s)).
Proof.
  unfold ResultTs.result, bind, call, ret. cbv zeta.
  destruct (((config ?. isError) ?? ResultTs.defaultIsError) value (world s))
    as [[[|]|e] w]; simpl;
    try destruct (truthy _); reflexivity.
Qed.

(** tcf.ts: the same, with the tag taken by [??]. *)
Lemma tcf_result_eq value config s :
  let isError := (config ?. isError) ?? TcfTs.defaultIsError in
  TcfTs.result value config s
  = (match fst (isError value (world s)) with
     | Normal b => Normal (expected_result b value config)
     | Throw e => Throw e
     end,
     set_world (snd (isError value (world s))) (add_log (EvIsError value) s)).
Proof.
  unfold TcfTs.result, expected_result, bind, call, ret. cbv zeta.
  destruct (((config ?. isError) ?? TcfTs.defaultIsError) value (world s))
    as [[[|]|e] w]; reflexivity.
Qed.

(** With no empty tag, result.ts gives the tag that [??] gives. *)
Lemma result_ts_expected value config s :
  no_empty_tag config ->
  let isError := (config ?. isError) ?? ResultTs.defaultIsError in
  ResultTs.result value config s
  = (match fst (isError value (world s)) with
     | Normal b => Normal (expected_result b value config)
     | Throw e => Throw e
     end,
     set_world (snd (isError value (world s))) (add_log (EvIsError value) s)).
Proof.
  intros [HE HO]. cbv zeta. rewrite result_ts_eq. cbv zeta. f_equal.
  destruct (fst _) as [[|]|e]; [| |reflexivity]; unfold expected_result.
  - destruct (truthy (config ?. tagError)) eqn:Ht.
    + destruct (truthy_nonempty _ HE Ht) as [c ->]. reflexivity.
    + rewrite (truthy_false _ HE Ht). reflexivity.
  - destruct (truthy (config ?. tagOk)) eqn:Ht.
    + destruct (truthy_nonempty _ HO Ht) as [c ->]. reflexivity.
    + rewrite (truthy_false _ HO Ht). reflexivity.
Qed.

(** The two [result] functions agree on every config with no empty tag. *)
Lemma results_agree_without_empty_tag value config s :
  no_empty_tag config ->
  ResultTs.result value config s = TcfTs.result value config s.
Proof.
  intros H. rewrite result_ts_expected by exact H.
  rewrite tcf_result_eq. reflexivity.
Qed.

End ResultFacts.

(** C4.  [result(value, config)] is to apply the predicate once and return
    [err(value, tagError ?? default)] or [ok(value, tagOk ?? default)].
    The [result] of result.ts does not on an empty tag:
    [result(42, { tagOk: "" })] applies the default predicate once and
    returns an [Ok] of 42, but tagged ["Ok"], where [tagOk ?? "Ok"] is the
    empty string.  (It does on every config with no empty tag,
    [result_ts_expected]; the [result] of tcf.ts does on every config,
    [tcf_result_eq].) *)
Theorem result_ts_drops_empty_tag :
  ResultTs.result (VNum 42) empty_tagOk (s0 tt)
  = (Normal (OkI "Ok" (VNum 42)),
     {| world := tt; promises := []; jobs := []; log := [EvIsError (VNum 42)] |}) /\
  expected_result false (VNum 42) (@empty_tagOk unit) = OkI "" (VNum 42) /\
  fst (ResultTs.result (VNum 42) empty_tagOk (s0 tt))
  <> Normal (expected_result false (VNum 42) (@empty_tagOk unit)).
Proof. repeat split. simpl. discriminate. Qed.

(** C9. When the caller's [isError] throws on the value, [result] throws
    the same fault: nothing catches it, no instance is built, and the one
    call made is that of the predicate. *)
Theorem result_predicate_fault_propagates {W : Type}
    (value : Value) (config : ResultConfig W) (p : Pred W)
    (e : Value) (w : W) (s : State W) :
  isError config = Some p ->
  p value (world s) = (Throw e, w) ->
  ResultTs.result value (Some config) s
  = (Throw e, set_world w (add_log (EvIsError value) s)).
Proof.
  intros Hp He. rewrite result_ts_eq. simpl. rewrite Hp. simpl.
  rewrite He. reflexivity.
Qed.

Lemma result_predicate_fault_propagates_witness :
  let p : Pred unit := fun _ w => (Throw (VError "TypeError" "not a date"), w) in
  let config := {| isError := Some p; tagError := Some "E"; tagOk := None |} in
  isError config = Some p /\
  p (VNum 42) (world (s0 tt)) = (Throw (VError "TypeError" "not a date"), tt) /\
  fst (ResultTs.result (VNum 42) (Some config) (s0 tt))
  = Throw (VError "TypeError" "not a date").
Proof.
  intros p config.
  assert (Hp : isError config = Some p) by reflexivity.
  assert (He : p (VNum 42) (world (s0 tt))
               = (Throw (VError "TypeError" "not a date"), tt)) by reflexivity.
  split; [exact Hp|]. split; [exact He|].
  rewrite (result_predicate_fault_propagates (VNum 42) config p _ tt (s0 tt) Hp He).
  reflexivity.
Defined.

(** The [result] of tcf.ts lets the fault through in the same way. *)
Lemma tcf_result_predicate_fault_propagates {W : Type}
    (value : Value) (config : ResultConfig W) (p : Pred W)
    (e : Value) (w : W) (s : State W) :
  isError config = Some p ->
  p value (world s) = (Throw e, w) ->
  TcfTs.result value (Some config) s
  = (Throw e, set_world w (add_log (EvIsError value) s)).
Proof.
  intros Hp He. rewrite tcf_result_eq. simpl. rewrite Hp. simpl.
  rewrite He. reflexivity.
Qed.

(** C10.  The [result] of result.ts and the [result] of tcf.ts are to
    return the same variant, payload and tag on every value and config.
    They do not on an empty tag: on [result(42, { tagOk: "" })] result.ts
    returns an [Ok] tagged ["Ok"], tcf.ts an [Ok] tagged with the empty
    string.  (They agree on every config with no empty tag,
    [results_agree_without_empty_tag].) *)
Theorem results_differ_on_empty_tag :
  fst (ResultTs.result (VNum 42) empty_tagOk (s0 tt)) = Normal (OkI "Ok" (VNum 42)) /\
  fst (TcfTs.result (VNum 42) empty_tagOk (s0 tt)) = Normal (OkI "" (VNum 42)) /\
  ResultTs.result (VNum 42) empty_tagOk (s0 tt)
  <> TcfTs.result (VNum 42) empty_tagOk (s0 tt).
Proof. repeat split. simpl. discriminate. Qed.

(** * Further properties of the code *)

(** ** Guards *)

(** X1. [isOk()] and [isErr()] are each other's negation, and the guard
    tells which field the instance has: an instance that answers [isOk()]
    holds its payload in [value] and has no [error]; one that answers
    [isErr()] holds it in [error] and has no [value].  [ok] builds the
    first kind and [err] the second, whatever the payload and tag. *)
Theorem guards_tell_the_field (r : Result) (v : Value) (t : option string) :
  isErr r = negb (isOk r) /\
  (if isOk r
   then value r = Some (unwrap r) /\ error r = None
   else error r = Some (unwrap r) /\ value r = None) /\
  isOk (OkTs.ok v t) = true /\
  isErr (ErrTs.err v t) = true.
Proof. destruct r; repeat split. Qed.

(** ** [tcf]: what is called, what is thrown, what is left alone *)

Section TcfMore.

Context {W : Type}.
Implicit Types (s : State W) (tryFn : Thunk W) (catchFn : Fn W)
  (finallyFn : option (Thunk W)).

(** The state [tcf] leaves differs from the one it found by the host's
    state and the log only. *)
Lemma tcf_state tryFn catchFn finallyFn tagError tagOk s :
  let s' := snd (TcfTs.tcf tryFn catchFn finallyFn tagError tagOk s) in
  promises s' = promises s /\ jobs s' = jobs s.
Proof.
  unfold TcfTs.tcf, try_catch_finally, TcfTs.call_finally, bind, call, ret.
  destruct finallyFn as [fin|], tagOk, tagError; simpl;
    destruct (tryFn (world s)) as [[v|e] w1]; simpl;
    try (destruct (catchFn e w1) as [[e'|x] w2]; simpl);
    try (destruct (fin _) as [[y|z] w3]; simpl);
    split; reflexivity.
Qed.

Lemma tcf_log tryFn catchFn finallyFn tagError tagOk s :
  log (snd (TcfTs.tcf tryFn catchFn finallyFn tagError tagOk s))
  = log s ++ try_catch_events tryFn (world s) ++ finally_events finallyFn.
Proof.
  destruct finallyFn as [fin|].
  - destruct (tcf_finally_last tryFn catchFn fin tagError tagOk s) as [Hl _].
    destruct (tcf_without_finally tryFn catchFn tagError tagOk s) as [Hl1 _].
    cbv zeta in *. rewrite Hl, Hl1, <- app_assoc. reflexivity.
  - destruct (tcf_without_finally tryFn catchFn tagError tagOk s) as [Hl1 _].
    cbv zeta in *. rewrite Hl1. simpl. rewrite app_nil_r. reflexivity.
Qed.

End TcfMore.

(** X2. The calls [tcf] makes, in order: [try], once and first; [catch]
    only when [try] threw, once, on the fault thrown; [finally] only when
    one was given, once and last.  A [catch] and a [finally] that were not
    due are never called. *)
Theorem tcf_call_trace {W : Type}
    (tryFn : Thunk W) (catchFn : Fn W) (finallyFn : option (Thunk W))
    (tagError tagOk : option string) (s : State W) :
  log (snd (TcfTs.tcf tryFn catchFn finallyFn tagError tagOk s))
  = log s
    ++ match tryFn (world s) with
       | (Normal _, _) => [EvTry]
       | (Throw e, _) => [EvTry; EvCatch e]
       end
    ++ match finallyFn with
       | Some _ => [EvFinally]
       | None => []
       end.
Proof. apply tcf_log. Qed.

(** X3. [tcf] awaits nothing: it creates no promise, leaves no reaction
    and queues no job, whatever [try], [catch] and [finally] return. *)
Theorem tcf_awaits_nothing {W : Type}
    (tryFn : Thunk W) (catchFn : Fn W) (finallyFn : option (Thunk W))
    (tagError tagOk : option string) (s : State W) :
  promises (snd (TcfTs.tcf tryFn catchFn finallyFn tagError tagOk s))
  = promises s /\
  jobs (snd (TcfTs.tcf tryFn catchFn finallyFn tagError tagOk s)) = jobs s.
Proof. apply tcf_state. Qed.

(** X4. A fault of the [finally] operation is the fault of [tcf], whatever
    came before: the [Ok] of a [try] that returned, the [Err] of a [catch]
    that returned, or the fault of a [catch] that threw, is lost. *)
Theorem tcf_finally_fault_wins {W : Type}
    (tryFn : Thunk W) (catchFn : Fn W) (fin : Thunk W)
    (tagError tagOk : option string) (s : State W) (z : Value) (w : W) :
  fin (before_finally tryFn catchFn (world s)) = (Throw z, w) ->
  fst (TcfTs.tcf tryFn catchFn (Some fin) tagError tagOk s) = Throw z /\
  world (snd (TcfTs.tcf tryFn catchFn (Some fin) tagError tagOk s)) = w.
Proof.
  unfold before_finally, TcfTs.tcf, try_catch_finally, TcfTs.call_finally,
    bind, call, ret.
  intros Hfin.
  destruct tagOk, tagError; simpl;
    destruct (tryFn (world s)) as [[v|e] w1]; simpl in *;
    try (destruct (catchFn e w1) as [[e'|x] w2]; simpl in * );
    rewrite Hfin; split; reflexivity.
Qed.

Lemma tcf_finally_fault_wins_witness :
  throws (VStr "late") (before_finally (throws (VStr "first"))
                          (fun _ => throws (VStr "second")) tt)
  = (Throw (VStr "late"), tt) /\
  fst (TcfTs.tcf (throws (VStr "first")) (fun _ => throws (VStr "second"))
         (Some (throws (VStr "late"))) None None (s0 tt))
  = Throw (VStr "late").
Proof.
  assert (H : throws (VStr "late")
                (before_finally (throws (VStr "first"))
                   (fun _ => throws (VStr "second")) tt)
              = (Throw (VStr "late"), tt)) by reflexivity.
  split; [exact H|].
  exact (proj1 (tcf_finally_fault_wins (throws (VStr "first"))
                  (fun _ => throws (VStr "second")) (throws (VStr "late"))
                  None None (s0 tt) (VStr "late") tt H)).
Defined.

(** X5. A fault of the [catch] transformer is not caught: when [try]
    throws, [catch] throws [x] and [finally] is absent or returns, [tcf]
    throws [x] and builds no instance. *)
Theorem tcf_catch_fault_propagates {W : Type}
    (tryFn : Thunk W) (catchFn : Fn W) (finallyFn : option (Thunk W))
    (tagError tagOk : option string) (s : State W)
    (e x : Value) (w1 w2 : W) :
  tryFn (world s) = (Throw e, w1) ->
  catchFn e w1 = (Throw x, w2) ->
  finally_returns finallyFn w2 ->
  fst (TcfTs.tcf tryFn catchFn finallyFn tagError tagOk s) = Throw x.
Proof.
  intros Htry Hcatch Hfin.
  rewrite tcf_completion.
  - rewrite Htry, Hcatch. reflexivity.
  - unfold before_finally. rewrite Htry, Hcatch. exact Hfin.
Qed.

Lemma tcf_catch_fault_propagates_witness :
  throws (VStr "first") (world (s0 0)) = (Throw (VStr "first"), 0) /\
  throws (VStr "second") 0 = (Throw (VStr "second"), 0) /\
  finally_returns (Some count_call) 0 /\
  fst (TcfTs.tcf (throws (VStr "first")) (fun _ => throws (VStr "second"))
         (Some count_call) None None (s0 0))
  = Throw (VStr "second").
Proof.
  assert (Hf : finally_returns (Some count_call) 0)
    by (exists VUndefined, 1; reflexivity).
  split; [reflexivity|]. split; [reflexivity|]. split; [exact Hf|].
  exact (tcf_catch_fault_propagates (throws (VStr "first"))
           (fun _ => throws (VStr "second")) (Some count_call) None None
           (s0 0) (VStr "first") (VStr "second") 0 0 eq_refl eq_refl Hf).
Defined.

(** X6. Each branch of [tcf] uses its own options only.  When [try]
    returns, the [catch] transformer and [tagError] play no part: the
    instance and the state are the same whatever they are.  When [try]
    throws, [tagOk] plays no part. *)
Theorem tcf_branch_uses_own_options {W : Type}
    (tryFn : Thunk W) (catchFn catchFn' : Fn W) (finallyFn : option (Thunk W))
    (tagError tagError' tagOk tagOk' : option string) (s : State W) :
  match tryFn (world s) with
  | (Normal _, _) =>
      TcfTs.tcf tryFn catchFn finallyFn tagError tagOk s
      = TcfTs.tcf tryFn catchFn' finallyFn tagError' tagOk s
  | (Throw _, _) =>
      TcfTs.tcf tryFn catchFn finallyFn tagError tagOk s
      = TcfTs.tcf tryFn catchFn finallyFn tagError tagOk' s
  end.
Proof.
  unfold TcfTs.tcf, try_catch_finally, TcfTs.call_finally, bind, call, ret.
  destruct tagOk, tagOk', tagError, tagError'; simpl;
    destruct (tryFn (world s)) as [[v|e] w1]; reflexivity.
Qed.

(** X7. [tcf({ ... }).match(onOk, onErr)], with a [finally] that is absent
    or returns.  When [try] returns [v], [onOk] is called on [v] (at once
    if [v] is not a promise, and [match] returns what it returns; not yet
    if it is, and [match] returns a new promise); when [try] throws and
    [catch] returns [e'], the same with [onErr] and [e']; when [catch]
    throws, its fault comes out of [tcf] and [match] is not reached. *)
Theorem tcf_then_match {W : Type}
    (tryFn : Thunk W) (catchFn : Fn W) (finallyFn : option (Thunk W))
    (tagError tagOk : option string) (f g : Fn W) (s : State W) :
  finally_returns finallyFn (before_finally tryFn catchFn (world s)) ->
  let s1 := snd (TcfTs.tcf tryFn catchFn finallyFn tagError tagOk s) in
  let r := tcf_match tryFn catchFn finallyFn tagError tagOk f g s in
  match tryFn (world s) with
  | (Normal v, _) =>
      if instanceof_Promise v
      then fst r = Normal (VPromise (length (promises s))) /\
           log (snd r) = log s1
      else fst r = fst (f v (world s1)) /\
           log (snd r) = log s1 ++ [EvOnOk v]
  | (Throw e, w) =>
      match catchFn e w with
      | (Normal e', _) =>
          if instanceof_Promise e'
          then fst r = Normal (VPromise (length (promises s))) /\
               log (snd r) = log s1
          else fst r = fst (g e' (world s1)) /\
               log (snd r) = log s1 ++ [EvOnErr e']
      | (Throw x, _) => r = (Throw x, s1)
      end
  end.
Proof.
  intros Hfin. cbv zeta.
  pose proof (tcf_completion tryFn catchFn finallyFn tagError tagOk s Hfin) as Hc.
  pose proof (tcf_state tryFn catchFn finallyFn tagError tagOk s) as [Hps _].
  unfold tcf_match, bind.
  destruct (TcfTs.tcf tryFn catchFn finallyFn tagError tagOk s) as [c s1'].
  simpl in Hc, Hps |- *.
  destruct (tryFn (world s)) as [[v|e] w1];
    [|destruct (catchFn e w1) as [[e'|x] w2]]; rewrite Hc; clear Hc.
  - change (match_ (OkTs.ok v tagOk) f g s1') with (OkTs.match_ v f s1').
    destruct (instanceof_Promise v) eqn:Hv.
    + destruct v; try discriminate Hv. unfold OkTs.match_.
      rewrite then_eq, <- Hps. simpl. rewrite subscribe_log. split; reflexivity.
    + rewrite ok_match_plain by exact Hv. split; reflexivity.
  - change (match_ (ErrTs.err e' tagError) f g s1')
      with (ErrTs.match_ e' f g s1').
    destruct (instanceof_Promise e') eqn:He.
    + destruct e'; try discriminate He. unfold ErrTs.match_.
      rewrite then_eq, <- Hps. simpl. rewrite subscribe_log. split; reflexivity.
    + rewrite err_match_plain by exact He. split; reflexivity.
  - reflexivity.
Qed.

Lemma tcf_then_match_witness :
  finally_returns (Some count_call)
    (before_finally (throws (VError "CustomError" "test error")) handled 0) /\
  (fst (tcf_match (throws (VError "CustomError" "test error")) handled
          (Some count_call) None None identity message (s0 0))
   = Normal (VStr "test error") /\
   log (snd (tcf_match (throws (VError "CustomError" "test error")) handled
               (Some count_call) None None identity message (s0 0)))
   = [EvTry; EvCatch (VError "CustomError" "test error"); EvFinally;
      EvOnErr (VError "HandledError" "test error")]).
Proof.
  assert (Hf : finally_returns (Some count_call)
                 (before_finally (throws (VError "CustomError" "test error"))
                    handled 0))
    by (exists VUndefined, 1; reflexivity).
  split; [exact Hf|].
  exact (tcf_then_match (throws (VError "CustomError" "test error")) handled
           (Some count_call) None None identity message (s0 0) Hf).
Defined.

(** X8. [tcf] catches what [try] throws, not what a promise returned by
    [try] is later rejected with.  When [try] returns a pending promise,
    the instance is an [Ok] of that promise; if the promise is then
    rejected, [catch] is never called, [match] on the instance calls
    neither handler, and the promise [match] returned is rejected for the
    same reason. *)
Theorem tcf_does_not_catch_rejection {W : Type}
    (tryFn : Thunk W) (catchFn : Fn W) (finallyFn : option (Thunk W))
    (tagError tagOk : option string) (f g : Fn W) (s : State W)
    (p : nat) (w : W) (reason : Value) (fuel : nat) :
  tryFn (world s) = (Normal (VPromise p), w) ->
  finally_returns finallyFn w ->
  promises s !! p = Some {| pstate := Pending; reactions := [] |} ->
  jobs s = [] ->
  fst (TcfTs.tcf tryFn catchFn finallyFn tagError tagOk s)
  = Normal (OkTs.ok (VPromise p) tagOk) /\
  let s' :=
    run_jobs (S fuel)
      (reject p reason
         (snd (tcf_match tryFn catchFn finallyFn tagError tagOk f g s))) in
  log s' = log s ++ [EvTry] ++ finally_events finallyFn /\
  state_of (length (promises s)) s' = Some (Rejected reason).
Proof.
  intros Htry Hfin Hp Hj.
  assert (Hfin' : finally_returns finallyFn
                    (before_finally tryFn catchFn (world s)))
    by (unfold before_finally; rewrite Htry; exact Hfin).
  pose proof (tcf_completion tryFn catchFn finallyFn tagError tagOk s Hfin') as Hc.
  pose proof (tcf_state tryFn catchFn finallyFn tagError tagOk s) as [Hps Hjs].
  pose proof (tcf_log tryFn catchFn finallyFn tagError tagOk s) as Hl.
  unfold try_catch_events in Hl. rewrite Htry in Hc, Hl.
  split; [exact Hc|].
  unfold tcf_match, bind.
  destruct (TcfTs.tcf tryFn catchFn finallyFn tagError tagOk s) as [c s1].
  simpl in Hc, Hps, Hjs, Hl. subst c.
  change (match_ (OkTs.ok (VPromise p) tagOk) f g s1)
    with (then_ p (CbOkMatch f) s1).
  rewrite <- Hps in Hp. rewrite <- Hjs in Hj.
  destruct (rejection_passes_through p (CbOkMatch f) reason s1 fuel Hp Hj)
    as (Hlog & _ & Hst).
  cbv zeta. rewrite Hlog, Hl, <- Hps. split; [reflexivity | exact Hst].
Qed.

Lemma tcf_does_not_catch_rejection_witness :
  let s := one_promise tt Pending in
  returns (VPromise 0) (world s) = (Normal (VPromise 0), tt) /\
  finally_returns (@None (Thunk unit)) tt /\
  promises s !! 0 = Some {| pstate := Pending; reactions := [] |} /\
  jobs s = [] /\
  log (run_jobs 1
         (reject 0 (VError "Error" "network")
            (snd (tcf_match (returns (VPromise 0)) handled None None None
                    identity message s))))
  = [EvTry].
Proof.
  intros s.
  assert (Hf : finally_returns (@None (Thunk unit)) tt) by exact I.
  split; [reflexivity|]. split; [exact Hf|]. split; [reflexivity|].
  split; [reflexivity|].
  pose proof (tcf_does_not_catch_rejection (returns (VPromise 0)) handled None
                None None identity message s 0 tt (VError "Error" "network") 0
                eq_refl Hf eq_refl eq_refl) as [_ H].
  cbv zeta in H. destruct H as [H _]. exact H.
Defined.

(** ** [result]: the value, the default predicate, the tags *)

(** X9. [result] keeps the value: whenever the predicate returns, both
    [result] functions return an instance whose [unwrap()] is the value
    passed in, and which is an [Err] exactly when the predicate answered
    [true].  Tags and the kind of value play no part. *)
Theorem result_keeps_value {W : Type}
    (value : Value) (config : option (ResultConfig W)) (s : State W)
    (b : bool) (w : W) :
  ((config ?. isError) ?? ResultTs.defaultIsError) value (world s)
  = (Normal b, w) ->
  exists r r',
    fst (ResultTs.result value config s) = Normal r /\
    fst (TcfTs.result value config s) = Normal r' /\
    unwrap r = value /\ unwrap r' = value /\
    isErr r = b /\ isErr r' = b /\
    isOk r = negb b /\ isOk r' = negb b.
Proof.
  intros Hp. rewrite result_ts_eq, tcf_result_eq. cbv zeta.
  change TcfTs.defaultIsError with (@ResultTs.defaultIsError W).
  rewrite Hp. simpl. destruct b; eexists; eexists; repeat split.
Qed.

Lemma result_keeps_value_witness :
  let isValidation : Pred unit :=
    fun v w =>
      (Normal match v with
              | VError "ValidationError" _ => true
              | _ => false
              end, w) in
  let config :=
    Some {| isError := Some isValidation; tagError := None; tagOk := None |} in
  ((config ?. isError) ?? ResultTs.defaultIsError)
    (VError "NetworkError" "connection failed") (world (s0 tt))
  = (Normal false, tt) /\
  exists r,
    fst (ResultTs.result (VError "NetworkError" "connection failed") config
           (s0 tt)) = Normal r /\
    unwrap r = VError "NetworkError" "connection failed" /\
    isOk r = true.
Proof.
  intros isValidation config.
  assert (H : ((config ?. isError) ?? ResultTs.defaultIsError)
                (VError "NetworkError" "connection failed") (world (s0 tt))
              = (Normal false, tt)) by reflexivity.
  split; [exact H|].
  destruct (result_keeps_value (VError "NetworkError" "connection failed")
              config (s0 tt) false tt H)
    as (r & _ & Hr & _ & Hu & _ & _ & _ & Ho & _).
  exists r. repeat split; assumption.
Defined.

(** X10. With no [isError] in the config, [result] never throws and does
    not touch the host: it makes one call, of the default predicate, and
    returns an [Err] exactly for instances of [Error].  A promise is not
    one, so a promise is wrapped as an [Ok] whatever it settles to. *)
Theorem result_default_predicate {W : Type}
    (value : Value) (config : option (ResultConfig W)) (s : State W) :
  config ?. isError = None ->
  exists r r',
    ResultTs.result value config s = (Normal r, add_log (EvIsError value) s) /\
    TcfTs.result value config s = (Normal r', add_log (EvIsError value) s) /\
    isErr r = instanceof_Error value /\
    isErr r' = instanceof_Error value /\
    (if instanceof_Promise value then isOk r = true /\ isOk r' = true else True).
Proof.
  intros Hc. rewrite result_ts_eq, tcf_result_eq. cbv zeta. rewrite Hc.
  simpl. destruct s as [w ps js lg].
  destruct value; simpl; eexists; eexists; repeat split.
Qed.

Lemma result_default_predicate_witness :
  (@None (ResultConfig unit)) ?. isError = None /\
  fst (ResultTs.result (VPromise 0) None (one_promise tt (Rejected (VError "Error" "x"))))
  = Normal (OkI "Ok" (VPromise 0)).
Proof.
  assert (H : (@None (ResultConfig unit)) ?. isError = None) by reflexivity.
  split; [exact H|].
  destruct (result_default_predicate (VPromise 0) None
              (one_promise tt (Rejected (VError "Error" "x"))) H)
    as (r & _ & Hr & _ & _ & _ & _).
  rewrite Hr. simpl. vm_compute in Hr. injection Hr as <-. reflexivity.
Defined.

(** X11. In the [result] of result.ts an empty tag is an absent tag: a
    config that gives [tagOk] (or [tagError]) as the empty string yields
    what the same config without that tag yields, and no instance it
    returns carries the empty tag. *)
Theorem result_ts_empty_tag_is_absent {W : Type}
    (value : Value) (c : ResultConfig W) (s : State W) :
  ResultTs.result value (Some (set_tagOk (Some "") c)) s
  = ResultTs.result value (Some (set_tagOk None c)) s /\
  ResultTs.result value (Some (set_tagError (Some "") c)) s
  = ResultTs.result value (Some (set_tagError None c)) s /\
  match fst (ResultTs.result value (Some c) s) with
  | Normal r => tag r <> ""
  | Throw _ => True
  end.
Proof.
  rewrite !result_ts_eq. cbv zeta. simpl. split; [reflexivity|].
  split; [reflexivity|].
  destruct (fst _) as [[|]|e]; [| |exact I].
  - destruct (tagError c) as [t|]; simpl; [|discriminate].
    destruct (String.eqb_spec t ""); simpl; [discriminate|assumption].
  - destruct (tagOk c) as [t|]; simpl; [|discriminate].
    destruct (String.eqb_spec t ""); simpl; [discriminate|assumption].
Qed.

(** X12. The [result] of tcf.ts takes the tag by [??]: whenever the
    predicate returns, it has been applied once, and the instance is
    [err(value, tagError ?? "Err")] or [ok(value, tagOk ?? "Ok")]; a tag
    given as the empty string is kept. *)
Theorem tcf_result_tags_by_nullish {W : Type}
    (value : Value) (config : option (ResultConfig W)) (s : State W)
    (b : bool) (w : W) :
  ((config ?. isError) ?? TcfTs.defaultIsError) value (world s)
  = (Normal b, w) ->
  TcfTs.result value config s
  = (Normal (if b
             then ErrI ((config ?. tagError) ?? "Err") value
             else OkI ((config ?. tagOk) ?? "Ok") value),
     set_world w (add_log (EvIsError value) s)).
Proof.
  intros Hp. rewrite tcf_result_eq. cbv zeta. rewrite Hp.
  destruct b; reflexivity.
Qed.

Lemma tcf_result_tags_by_nullish_witness :
  ((empty_tagOk ?. isError) ?? TcfTs.defaultIsError) (VNum 42) (world (s0 tt))
  = (Normal false, tt) /\
  fst (TcfTs.result (VNum 42) empty_tagOk (s0 tt)) = Normal (OkI "" (VNum 42)).
Proof.
  assert (H : ((empty_tagOk ?. isError) ?? TcfTs.defaultIsError) (VNum 42)
                (world (s0 tt)) = (Normal false, tt)) by reflexivity.
  split; [exact H|].
  rewrite (tcf_result_tags_by_nullish (VNum 42) empty_tagOk (s0 tt) false tt H).
  reflexivity.
Defined.

(** ** Promise payloads: what [pair] calls, rejection, two consumers,
    a handler that returns a promise *)

Section PromiseMore.

Context {W : Type}.
Implicit Types (s : State W) (f g : Fn W) (x y : Value).

(** A callback that calls nothing leaves the log and the host alone. *)
Lemma silent_reaction p (cb : Callback W) x y s fuel :
  fulfils_with p x s ->
  run_callback cb x = ret y ->
  let s' := run_jobs (S fuel) (fulfill p x (snd (then_ p cb s))) in
  log s' = log s /\ world s' = world s.
Proof.
  intros Hq Hcb. cbv zeta. rewrite reaction_runs by exact Hq. rewrite Hcb.
  unfold ret.
  pose proof (resolve_adopts _ y _ (fulfilled_at_adopts p x s Hq)) as Ha.
  destruct (run_jobs_adopts fuel _ _ Ha) as [-> ->].
  rewrite resolve_log, resolve_world. split; reflexivity.
Qed.

(** The handler returned a promise [q] that is already fulfilled: the
    promise [then] returned follows it. *)
Lemma follows_fulfilled p q (cb : Callback W) ev (h : Fn W) x y w o s fuel :
  fulfils_with p x s ->
  run_callback cb x = call ev (h x) ->
  h x (world s) = (Normal (VPromise q), w) ->
  q <> p ->
  promises s !! q = Some o ->
  pstate o = Fulfilled y ->
  instanceof_Promise y = false ->
  state_of (length (promises s))
    (run_jobs (S (S fuel)) (fulfill p x (snd (then_ p cb s))))
  = Some (Fulfilled y).
Proof.
  intros Hq Hcb Hh Hqp Ho Hst Hy.
  pose proof (fulfils_with_lt _ _ _ Hq) as Hlt.
  pose proof (lookup_lt_Some _ _ _ Ho) as Hqlt.
  pose proof (handler_settles_derived p cb ev h x s (S fuel) Hq Hcb) as H.
  rewrite Hh in H. destruct H as [-> _].
  unfold resolve. destruct (Nat.eqb_spec q (length (promises s))) as [->|_]; [lia|].
  unfold subscribe. simpl.
  rewrite list_lookup_insert_ne by (intros ->; apply Hqp; reflexivity).
  rewrite (lookup_app_l_Some _ _ _ _ Ho). rewrite Hst. simpl.
  rewrite (proj2 Hq). simpl. unfold run_job. simpl.
  destruct y; try discriminate Hy; simpl;
    match goal with
    | |- state_of _ (run_jobs _ (fulfill _ ?v ?st)) = _ =>
        assert (Hd : promises st !! length (promises s)
                     = Some {| pstate := Pending; reactions := [] |})
          by (simpl; rewrite list_lookup_insert_ne by lia;
              rewrite lookup_app_r by lia; rewrite Nat.sub_diag; reflexivity);
        destruct (settle_pending_state _ (Fulfilled v) _ Hd) as [Hs Hj];
        unfold fulfill; rewrite run_jobs_idle by (rewrite Hj; reflexivity);
        exact Hs
    end.
Qed.

End PromiseMore.

(** X13. [pair] never calls a function of the caller.  On any instance it
    returns with the log and the host's state as they were; and when the
    payload is a promise, the job that fills the tuple in, once the
    payload is fulfilled, calls nothing either. *)
Theorem pair_calls_nothing {W : Type}
    (r : Result) (p : nat) (x : Value) (t : option string)
    (s : State W) (fuel : nat) :
  fulfils_with p x s ->
  (log (snd (pair r s)) = log s /\ world (snd (pair r s)) = world s) /\
  (let s' := run_jobs (S fuel)
               (fulfill p x (snd (pair (OkTs.ok (VPromise p) t) s))) in
   log s' = log s /\ world s' = world s) /\
  (let s' := run_jobs (S fuel)
               (fulfill p x (snd (pair (ErrTs.err (VPromise p) t) s))) in
   log s' = log s /\ world s' = world s).
Proof.
  intros Hq. split; [|split].
  - destruct r as [tg v|tg v]; destruct v; simpl;
      try (split; reflexivity); rewrite subscribe_log, subscribe_world;
      split; reflexivity.
  - apply (silent_reaction p CbOkPair x _ s fuel Hq eq_refl).
  - apply (silent_reaction p CbErrPair x _ s fuel Hq eq_refl).
Qed.

Lemma pair_calls_nothing_witness :
  fulfils_with 0 (VNum 1) (one_promise 7 (Fulfilled (VNum 1))) /\
  world (run_jobs 1
           (fulfill 0 (VNum 1)
              (snd (pair (OkTs.ok (VPromise 0) None)
                      (one_promise 7 (Fulfilled (VNum 1)))))))
  = 7.
Proof.
  assert (Hq : fulfils_with 0 (VNum 1) (one_promise 7 (Fulfilled (VNum 1))))
    by (split; [right|]; reflexivity).
  split; [exact Hq|].
  destruct (pair_calls_nothing (OkTs.ok (VNum 0) None) 0 (VNum 1) None
              (one_promise 7 (Fulfilled (VNum 1))) 0 Hq) as (_ & [_ H] & _).
  exact H.
Defined.

(** X14. A payload promise that is rejected: [match] calls neither
    handler and [pair] fills no tuple; the promise each of them returned
    is rejected for the same reason.  Nothing in the instance catches the
    rejection, for an [Ok] as for an [Err]. *)
Theorem rejected_payload_skips_handlers {W : Type}
    (p : nat) (reason : Value) (t : option string) (f g : Fn W)
    (s : State W) (fuel : nat) :
  promises s !! p = Some {| pstate := Pending; reactions := [] |} ->
  jobs s = [] ->
  let d := length (promises s) in
  let later (r : Completion Value * State W) :=
    run_jobs (S fuel) (reject p reason (snd r)) in
  let untouched (s' : State W) :=
    log s' = log s /\ world s' = world s /\
    state_of d s' = Some (Rejected reason) in
  untouched (later (match_ (OkTs.ok (VPromise p) t) f g s)) /\
  untouched (later (match_ (ErrTs.err (VPromise p) t) f g s)) /\
  untouched (later (pair (OkTs.ok (VPromise p) t) s)) /\
  untouched (later (pair (ErrTs.err (VPromise p) t) s)).
Proof.
  intros Hp Hj. cbv zeta. repeat apply conj.
  all: first
    [ apply (rejection_passes_through p (CbOkMatch f) reason s fuel Hp Hj)
    | apply (rejection_passes_through p (CbErrMatch g) reason s fuel Hp Hj)
    | apply (rejection_passes_through p CbOkPair reason s fuel Hp Hj)
    | apply (rejection_passes_through p CbErrPair reason s fuel Hp Hj) ].
Qed.

Lemma rejected_payload_skips_handlers_witness :
  promises (one_promise tt Pending) !! 0
  = Some {| pstate := Pending; reactions := [] |} /\
  jobs (one_promise tt Pending) = [] /\
  state_of 1
    (run_jobs 1
       (reject 0 (VError "Error" "network")
          (snd (pair (OkTs.ok (VPromise 0) None) (one_promise tt Pending)))))
  = Some (Rejected (VError "Error" "network")).
Proof.
  split; [reflexivity|]. split; [reflexivity|].
  pose proof (rejected_payload_skips_handlers 0 (VError "Error" "network") None
                identity identity (one_promise tt Pending) 0 eq_refl eq_refl)
    as H.
  cbv zeta in H. destruct H as (_ & _ & (_ & _ & H) & _). exact H.
Defined.

(** X15. A handler that returns a promise: when the payload is a promise
    fulfilled with [x] and the handler of [match] returns, on [x], a
    promise already fulfilled with [y], the promise [match] returned is
    fulfilled with [y], not with the handler's promise. *)
Theorem match_follows_returned_promise {W : Type}
    (p q : nat) (x y : Value) (t : option string) (f g : Fn W)
    (s : State W) (w : W) (o : PromiseObj W) (fuel : nat) :
  fulfils_with p x s ->
  f x (world s) = (Normal (VPromise q), w) ->
  q <> p ->
  promises s !! q = Some o ->
  pstate o = Fulfilled y ->
  instanceof_Promise y = false ->
  state_of (length (promises s))
    (run_jobs (S (S fuel))
       (fulfill p x (snd (match_ (OkTs.ok (VPromise p) t) f g s))))
  = Some (Fulfilled y) /\
  state_of (length (promises s))
    (run_jobs (S (S fuel))
       (fulfill p x (snd (match_ (ErrTs.err (VPromise p) t) g f s))))
  = Some (Fulfilled y).
Proof.
  intros Hq Hf Hqp Ho Hst Hy. split.
  - apply (follows_fulfilled p q (CbOkMatch f) (EvOnOk x) f x y w o s fuel
             Hq eq_refl Hf Hqp Ho Hst Hy).
  - apply (follows_fulfilled p q (CbErrMatch f) (EvOnErr x) f x y w o s fuel
             Hq eq_refl Hf Hqp Ho Hst Hy).
Qed.

Lemma match_follows_returned_promise_witness :
  let s : State unit :=
    {| world := tt;
       promises := [{| pstate := Fulfilled (VNum 1); reactions := [] |};
                    {| pstate := Fulfilled (VNum 2); reactions := [] |}];
       jobs := []; log := [] |} in
  let f : Fn unit := fun _ w => (Normal (VPromise 1), w) in
  fulfils_with 0 (VNum 1) s /\
  f (VNum 1) (world s) = (Normal (VPromise 1), tt) /\
  1 <> 0 /\
  promises s !! 1 = Some {| pstate := Fulfilled (VNum 2); reactions := [] |} /\
  instanceof_Promise (VNum 2) = false /\
  state_of 2
    (run_jobs 2
       (fulfill 0 (VNum 1) (snd (match_ (OkTs.ok (VPromise 0) None) f identity s))))
  = Some (Fulfilled (VNum 2)).
Proof.
  intros s f.
  assert (Hq : fulfils_with 0 (VNum 1) s) by (split; [right|]; reflexivity).
  assert (Hne : 1 <> 0) by discriminate.
  split; [exact Hq|]. split; [reflexivity|]. split; [exact Hne|].
  split; [reflexivity|]. split; [reflexivity|].
  exact (proj1 (match_follows_returned_promise 0 1 (VNum 1) (VNum 2) None f
                  identity s tt _ 0 Hq eq_refl Hne eq_refl eq_refl eq_refl)).
Defined.

Section TwoConsumers.

Context {W : Type}.

(** [then] on a pending promise adds its reaction after those present. *)
Lemma then_on_pending p (cb : Callback W) rs (s : State W) :
  promises s !! p = Some {| pstate := Pending; reactions := rs |} ->
  then_ p cb s
  = (Normal (VPromise (length (promises s))),
     set_promises
       (<[p := {| pstate := Pending;
                  reactions :=
                    rs ++ [{| on_fulfilled := cb;
                              derived := length (promises s) |}] |}]>
          (promises s ++ [{| pstate := Pending; reactions := [] |}])) s).
Proof.
  intros Hp. rewrite then_eq. unfold subscribe. simpl.
  rewrite (lookup_app_l_Some _ _ _ _ Hp). reflexivity.
Qed.

(** Two reactions wait on [p], the tuple of [pair] for [d1] and a handler
    for [d2]: fulfilling [p] runs them in that order, each settling its
    own promise. *)
Lemma two_reactions_run p d1 d2 (f : Fn W) x y w (s : State W) fuel :
  jobs s = [] ->
  promises s !! p
  = Some {| pstate := Pending;
            reactions := [{| on_fulfilled := CbOkPair; derived := d1 |};
                          {| on_fulfilled := CbOkMatch f; derived := d2 |}] |} ->
  promises s !! d1 = Some {| pstate := Pending; reactions := [] |} ->
  promises s !! d2 = Some {| pstate := Pending; reactions := [] |} ->
  d1 <> d2 ->
  f x (world s) = (Normal y, w) ->
  instanceof_Promise y = false ->
  let s' := run_jobs (S (S fuel)) (fulfill p x s) in
  state_of d1 s' = Some (Fulfilled (VArray [x; VUndefined])) /\
  state_of d2 s' = Some (Fulfilled y) /\
  log s' = log s ++ [EvOnOk x] /\
  world s' = w.
Proof.
  intros Hj Hp Hd1 Hd2 Hne Hf Hy.
  destruct s as [w0 P js lg]. simpl in Hj, Hp, Hd1, Hd2, Hf. subst js.
  assert (Hp1 : p <> d1) by (intros ->; rewrite Hp in Hd1; discriminate).
  assert (Hp2 : p <> d2) by (intros ->; rewrite Hp in Hd2; discriminate).
  pose proof (lookup_lt_Some _ _ _ Hd1) as Hl1.
  pose proof (lookup_lt_Some _ _ _ Hd2) as Hl2.
  assert (Hres : forall st : State W,
            resolve d2 y st = settle d2 (Fulfilled y) st)
    by (intros st; destruct y; try reflexivity; discriminate Hy).
  assert (Hfinal :
    run_jobs (S (S fuel))
      (fulfill p x {| world := w0; promises := P; jobs := []; log := lg |})
    = {| world := w;
         promises :=
           <[d2 := {| pstate := Fulfilled y; reactions := [] |}]>
             (<[d1 := {| pstate := Fulfilled (VArray [x; VUndefined]);
                         reactions := [] |}]>
                (<[p := {| pstate := Fulfilled x; reactions := [] |}]> P));
         jobs := [];
         log := lg ++ [EvOnOk x] |}).
  { unfold fulfill, settle. simpl. rewrite Hp. simpl.
    unfold run_job. simpl. unfold fulfill, settle. simpl.
    rewrite list_lookup_insert_ne by exact Hp1. rewrite Hd1. simpl.
    unfold call. simpl. rewrite Hf. rewrite Hres. unfold settle. simpl.
    rewrite list_lookup_insert_ne by exact Hne.
    rewrite list_lookup_insert_ne by exact Hp2. rewrite Hd2. simpl.
    rewrite run_jobs_idle by reflexivity. reflexivity. }
  cbv zeta. rewrite Hfinal. unfold state_of. simpl.
  rewrite list_lookup_insert_ne by (intros ->; apply Hne; reflexivity).
  rewrite list_lookup_insert_eq by (rewrite length_insert; exact Hl1).
  rewrite list_lookup_insert_eq by (rewrite !length_insert; exact Hl2).
  repeat split.
Qed.

End TwoConsumers.

(** X16. Two consumers of one pending payload do not disturb each other:
    after [r.pair()] and then [r.match(f, g)] on the same [Ok], each call
    has returned a promise of its own; once the payload is fulfilled with
    [x], the first is fulfilled with [[x, undefined]], the handler has
    been called once, on [x], and the second is fulfilled with what the
    handler returned. *)
Theorem pair_and_match_share_payload {W : Type}
    (p : nat) (x y : Value) (t : option string) (f g : Fn W)
    (s : State W) (w : W) (fuel : nat) :
  promises s !! p = Some {| pstate := Pending; reactions := [] |} ->
  jobs s = [] ->
  f x (world s) = (Normal y, w) ->
  instanceof_Promise y = false ->
  let d := length (promises s) in
  let s' := pair_then_match_later (OkTs.ok (VPromise p) t) f g p x
              (S (S fuel)) s in
  fst (pair (OkTs.ok (VPromise p) t) s) = Normal (VPromise d) /\
  fst (match_ (OkTs.ok (VPromise p) t) f g
         (snd (pair (OkTs.ok (VPromise p) t) s))) = Normal (VPromise (S d)) /\
  state_of d s' = Some (Fulfilled (VArray [x; VUndefined])) /\
  state_of (S d) s' = Some (Fulfilled y) /\
  log s' = log s ++ [EvOnOk x] /\
  world s' = w.
Proof.
  intros Hp Hj Hf Hy d s'.
  pose proof (lookup_lt_Some _ _ _ Hp) as Hlt.
  pose proof (then_on_pending p CbOkPair [] s Hp) as H1.
  change (then_ p CbOkPair s) with (pair (OkTs.ok (VPromise p) t) s) in H1.
  simpl app in H1. fold d in H1.
  set (s1 := snd (pair (OkTs.ok (VPromise p) t) s)).
  assert (Hs1 : s1 = set_promises
                       (<[p := {| pstate := Pending;
                                  reactions :=
                                    [{| on_fulfilled := CbOkPair;
                                        derived := d |}] |}]>
                          (promises s ++
                           [{| pstate := Pending; reactions := [] |}])) s)
    by (subst s1; rewrite H1; reflexivity).
  assert (Hp1 : promises s1 !! p
                = Some {| pstate := Pending;
                          reactions := [{| on_fulfilled := CbOkPair;
                                           derived := d |}] |}).
  { rewrite Hs1. simpl. apply list_lookup_insert_eq.
    rewrite length_app. simpl. lia. }
  assert (Hlen1 : length (promises s1) = S d).
  { rewrite Hs1. simpl. rewrite length_insert, length_app. simpl.
    unfold d. lia. }
  pose proof (then_on_pending p (CbOkMatch f) _ s1 Hp1) as H2.
  change (then_ p (CbOkMatch f) s1)
    with (match_ (OkTs.ok (VPromise p) t) f g s1) in H2.
  simpl app in H2. rewrite Hlen1 in H2.
  split; [rewrite H1; reflexivity|]. split; [rewrite H2; reflexivity|].
  subst s'. unfold pair_then_match_later. fold s1. rewrite H2.
  cbn [snd].
  assert (Hlog : log s1 = log s) by (rewrite Hs1; reflexivity).
  assert (Hw : world s1 = world s) by (rewrite Hs1; reflexivity).
  match goal with
  | |- context [fulfill p x ?st0] => set (st := st0)
  end.
  assert (Hst : state_of d (run_jobs (S (S fuel)) (fulfill p x st))
                = Some (Fulfilled (VArray [x; VUndefined])) /\
                state_of (S d) (run_jobs (S (S fuel)) (fulfill p x st))
                = Some (Fulfilled y) /\
                log (run_jobs (S (S fuel)) (fulfill p x st))
                = log st ++ [EvOnOk x] /\
                world (run_jobs (S (S fuel)) (fulfill p x st)) = w).
  { apply (two_reactions_run p d (S d) f x y w st fuel).
    - subst st. simpl. rewrite Hs1. exact Hj.
    - subst st. simpl. apply list_lookup_insert_eq.
      rewrite length_app, Hlen1. simpl. lia.
    - subst st. simpl. rewrite list_lookup_insert_ne by (unfold d; lia).
      rewrite lookup_app_l by (rewrite Hlen1; lia).
      rewrite Hs1. simpl. rewrite list_lookup_insert_ne by (unfold d; lia).
      rewrite lookup_app_r by (unfold d; lia).
      unfold d. rewrite Nat.sub_diag. reflexivity.
    - subst st. simpl. rewrite list_lookup_insert_ne by (unfold d; lia).
      rewrite lookup_app_r by (rewrite Hlen1; lia).
      rewrite Hlen1, Nat.sub_diag. reflexivity.
    - lia.
    - subst st. simpl. rewrite Hw. exact Hf.
    - exact Hy. }
  replace (log st) with (log s) in Hst by (subst st; simpl; symmetry; exact Hlog).
  exact Hst.
Qed.

Lemma pair_and_match_share_payload_witness :
  promises (one_promise 0 Pending) !! 0
  = Some {| pstate := Pending; reactions := [] |} /\
  jobs (one_promise 0 Pending) = [] /\
  identity (VNum 1) (world (one_promise 0 Pending)) = (Normal (VNum 1), 0) /\
  instanceof_Promise (VNum 1) = false /\
  state_of 1
    (pair_then_match_later (OkTs.ok (VPromise 0) None) identity message
       0 (VNum 1) 2 (one_promise 0 Pending))
  = Some (Fulfilled (VArray [VNum 1; VUndefined])) /\
  state_of 2
    (pair_then_match_later (OkTs.ok (VPromise 0) None) identity message
       0 (VNum 1) 2 (one_promise 0 Pending))
  = Some (Fulfilled (VNum 1)).
Proof.
  split; [reflexivity|]. split; [reflexivity|]. split; [reflexivity|].
  split; [reflexivity|].
  pose proof (pair_and_match_share_payload 0 (VNum 1) (VNum 1) None identity
                message (one_promise 0 Pending) 0 0
                eq_refl eq_refl eq_refl eq_refl) as H.
  cbv zeta in H. destruct H as (_ & _ & H1 & H2 & _). split; assumption.
Defined.
